(** * Email validator: a shallow embedding of [validate_email]

    Source: [Challenge_1/v2/email_validator_cli.py].

    The function takes an arbitrary Python value, guards against falsy and
    non-string arguments, strips surrounding whitespace and then runs a fixed
    sequence of length checks and two [re.match] calls.  Everything the
    function relies on (string methods, the regular-expression matcher, the
    tuple unpacking that may raise) is modelled below, and the checks are
    transcribed in the order of the source. *)

From Stdlib Require Import String Ascii List NArith Arith Bool Lia.
Import ListNotations.

Set Implicit Arguments.

(** ** Python strings *)

(** A Python [str] is a sequence of Unicode code points. *)
Definition char := N.
Definition str := list char.

(** Reading a literal: each character of a Rocq string is taken as its code. *)
Definition of_string (s : string) : str :=
  map N_of_ascii (list_ascii_of_string s).

(** ** Exceptions *)

Inductive exn :=
| ValueError | IndexError | AttributeError | TypeError
| UnicodeEncodeError | OSError
| SystemExit (code : nat).         (* raised by sys.exit(code) *)

Inductive res (A : Type) :=
| Ret (a : A)
| Raise (e : exn).
Arguments Ret {A} a.
Arguments Raise {A} e.

Definition bind {A B} (m : res A) (k : A -> res B) : res B :=
  match m with
  | Ret a => k a
  | Raise e => Raise e
  end.

Notation "x <- m ;; k" := (bind m (fun x => k))
  (at level 61, m at next level, right associativity).

(** ** Python values *)

(** The argument of [validate_email] is dynamically typed.  A non-string
    object other than [None] is represented by the only thing the function
    observes of it, the outcome of its truth test: [__bool__] or [__len__]
    returns, or raises (as a numpy array of several elements does). *)
Inductive pyval :=
| PyNone
| PyStr (s : str)
| PyObj (truth : res bool).

(** [bool(v)]: [None] and the empty string are falsy; the truth test of
    another object may raise. *)
Definition truthy (v : pyval) : res bool :=
  match v with
  | PyNone => Ret false
  | PyStr s => Ret (negb (Nat.eqb (length s) 0))
  | PyObj t => t
  end.

(** [isinstance(v, str)] *)
Definition isinstance_str (v : pyval) : bool :=
  match v with
  | PyStr _ => true
  | _ => false
  end.

(** ** String methods *)

Definition c_nl : char := 10%N.
Definition c_plus : char := 43%N.
Definition c_hyphen : char := 45%N.
Definition c_dot : char := 46%N.
Definition c_at : char := 64%N.
Definition c_underscore : char := 95%N.

Definition in_range (lo hi c : N) : bool := (N.leb lo c && N.leb c hi)%bool.

(** The code points [str.strip()] removes when called without argument
    (the characters for which [str.isspace] holds). *)
Definition is_space (c : char) : bool :=
  (in_range 9 13 c || in_range 28 32 c || N.eqb c 133 || N.eqb c 160
   || N.eqb c 5760 || in_range 8192 8202 c || N.eqb c 8232 || N.eqb c 8233
   || N.eqb c 8239 || N.eqb c 8287 || N.eqb c 12288)%bool.

Fixpoint lstrip (s : str) : str :=
  match s with
  | [] => []
  | c :: t => if is_space c then lstrip t else s
  end.

Definition rstrip (s : str) : str := rev (lstrip (rev s)).

(** [s.strip()] *)
Definition strip (s : str) : str := rstrip (lstrip s).

(** [v.strip()] on a dynamically typed value: only strings have the method. *)
Definition method_strip (v : pyval) : res str :=
  match v with
  | PyStr s => Ret (strip s)
  | _ => Raise AttributeError
  end.

(** [s.count(c)] for a one-character needle. *)
Fixpoint count_char (c : char) (s : str) : nat :=
  match s with
  | [] => 0
  | x :: t => (if N.eqb x c then 1 else 0) + count_char c t
  end.

(** [s.rsplit(c, 1)]: split once, at the last occurrence of [c]; a string
    without [c] comes back whole, as a one-element list. *)
Fixpoint rsplit1 (c : char) (s : str) : list str :=
  match s with
  | [] => [[]]
  | x :: t =>
      match rsplit1 c t with
      | [l; r] => [x :: l; r]
      | _ => if N.eqb x c then [[]; t] else [x :: t]
      end
  end.

(** [a, b = xs]: unpacking into two names raises [ValueError] unless the
    list has exactly two elements. *)
Definition unpack2 {A} (xs : list A) : res (A * A) :=
  match xs with
  | [a; b] => Ret (a, b)
  | _ => Raise ValueError
  end.

(** [s.split(c)] for a one-character separator. *)
Fixpoint split (c : char) (s : str) : list str :=
  match s with
  | [] => [[]]
  | x :: t =>
      if N.eqb x c then [] :: split c t
      else match split c t with
           | l :: ls => (x :: l) :: ls
           | [] => [[x]]
           end
  end.

(** [xs[-1]] raises [IndexError] on an empty list. *)
Definition index_last {A} (xs : list A) : res A :=
  match rev xs with
  | x :: _ => Ret x
  | [] => Raise IndexError
  end.

(** [s.startswith(p)] *)
Fixpoint startswith (p s : str) : bool :=
  match p, s with
  | [], _ => true
  | x :: p', y :: s' => (N.eqb x y && startswith p' s')%bool
  | _ :: _, [] => false
  end.

(** [s.endswith(p)] *)
Definition endswith (p s : str) : bool := startswith (rev p) (rev s).

Definition dotdot : str := [c_dot; c_dot].   (* '..' *)

(** [p in s] for strings: [p] occurs as a contiguous slice of [s]. *)
Fixpoint contains (p s : str) : bool :=
  match s with
  | [] => startswith p []
  | _ :: t => (startswith p s || contains p t)%bool
  end.

(** ** Regular expressions

    The two patterns of the source use anchors, character classes,
    concatenation, groups and the quantifiers [+], [*], [?], [{m,n}] and
    [{m,}].  All quantifiers are instances of a bounded repetition. *)

Inductive regex :=
| Bol                                            (* ^ *)
| Eol                                            (* $ *)
| Cls (p : char -> bool)                         (* [...] or an escaped char *)
| Seq (r1 r2 : regex)
| Rep (r : regex) (lo : nat) (hi : option nat).  (* r{lo,hi}; None: no bound *)

Definition Plus r := Rep r 1 None.
Definition Star r := Rep r 0 None.
Definition Opt r := Rep r 0 (Some 1).

(** A position of the matcher in the subject string: how many characters
    are behind it and what is still ahead. *)
Record cursor := Cursor { pos : nat; rest : str }.

(** Without [re.MULTILINE], [$] holds at the end of the string and also just
    before a newline that is the last character of the string. *)
Definition at_eol (s : str) : bool :=
  match s with
  | [] => true
  | [c] => N.eqb c c_nl
  | _ => false
  end.

Section Repeat.
Variable step : cursor -> list cursor.

(** exactly [n] rounds of [step] *)
Fixpoint exactly (n : nat) (c : cursor) : list cursor :=
  match n with
  | 0 => [c]
  | S n' => flat_map (exactly n') (step c)
  end.

(** between zero and [n] rounds of [step] *)
Fixpoint upto (n : nat) (c : cursor) : list cursor :=
  c :: match n with
       | 0 => []
       | S n' => flat_map (upto n') (step c)
       end.
End Repeat.

(** [run r c]: every cursor the backtracking matcher can reach by matching
    [r] from [c].  A repetition without upper bound is cut off after as many
    extra rounds as there are characters ahead: a round that consumes nothing
    reaches no new cursor. *)
Fixpoint run (r : regex) (c : cursor) : list cursor :=
  match r with
  | Bol => if Nat.eqb (pos c) 0 then [c] else []
  | Eol => if at_eol (rest c) then [c] else []
  | Cls p =>
      match rest c with
      | x :: t => if p x then [Cursor (S (pos c)) t] else []
      | [] => []
      end
  | Seq r1 r2 => flat_map (run r2) (run r1 c)
  | Rep r' lo hi =>
      flat_map
        (fun c' =>
           upto (run r')
                (match hi with
                 | Some h => h - lo
                 | None => length (rest c')
                 end) c')
        (exactly (run r') lo c)
  end.

(** [re.match(r, s)] tried as a condition: is there a match starting at the
    beginning of [s]? *)
Definition re_match (r : regex) (s : str) : bool :=
  match run r (Cursor 0 s) with
  | [] => false
  | _ :: _ => true
  end.

(** Character classes of the two patterns. *)
Definition is_lower (c : char) : bool := in_range 97 122 c.
Definition is_upper (c : char) : bool := in_range 65 90 c.
Definition is_digit (c : char) : bool := in_range 48 57 c.
Definition is_alpha (c : char) : bool := (is_lower c || is_upper c)%bool.
Definition is_alnum (c : char) : bool := (is_alpha c || is_digit c)%bool.
Definition is_sep (c : char) : bool :=
  (N.eqb c c_dot || N.eqb c c_underscore || N.eqb c c_plus
   || N.eqb c c_hyphen)%bool.
Definition is_alnum_hyphen (c : char) : bool :=
  (is_alnum c || N.eqb c c_hyphen)%bool.
Definition is_dot (c : char) : bool := N.eqb c c_dot.

(** [^[a-zA-Z0-9]+([._+-][a-zA-Z0-9]+)*$] *)
Definition local_pattern : regex :=
  Seq Bol
 (Seq (Plus (Cls is_alnum))
 (Seq (Star (Seq (Cls is_sep) (Plus (Cls is_alnum))))
      Eol)).

(** [([a-zA-Z0-9]([a-zA-Z0-9-]{0,61}[a-zA-Z0-9])?\.)] *)
Definition label_group : regex :=
  Seq (Cls is_alnum)
 (Seq (Opt (Seq (Rep (Cls is_alnum_hyphen) 0 (Some 61)) (Cls is_alnum)))
      (Cls is_dot)).

(** [^([a-zA-Z0-9]([a-zA-Z0-9-]{0,61}[a-zA-Z0-9])?\.)+[a-zA-Z]{2,}$] *)
Definition domain_pattern : regex :=
  Seq Bol
 (Seq (Plus label_group)
 (Seq (Rep (Cls is_alpha) 2 None)
      Eol)).

(** ** The validator *)

Definition verdict := (bool * string)%type.

(** The [for label in labels] loop; [None] when it runs to its end without
    returning. *)
Fixpoint check_labels (labels : list str) : option verdict :=
  match labels with
  | [] => None
  | label :: more =>
      if Nat.ltb 63 (length label) then
        Some (false, "Domain label exceeds 63 characters"%string)
      else if (startswith [c_hyphen] label || endswith [c_hyphen] label)%bool
      then Some (false, "Domain labels cannot start or end with hyphen"%string)
      else check_labels more
  end.

(** The checks on the two parts, from [# Validate local part] to the end. *)
Definition validate_parts (local domain : str) : res verdict :=
  if (Nat.eqb (length local) 0 || Nat.ltb 64 (length local))%bool then
    Ret (false, "Local part must be 1-64 characters"%string)
  else if negb (re_match local_pattern local) then
    Ret (false, "Local part contains invalid characters or format"%string)
  else if contains dotdot local then
    Ret (false, "Local part cannot contain consecutive dots"%string)
  else if (Nat.eqb (length domain) 0 || Nat.ltb (length domain) 3)%bool then
    Ret (false, "Domain part is too short"%string)
  else if negb (re_match domain_pattern domain) then
    Ret (false, "Domain contains invalid characters or format"%string)
  else
    let labels := split c_dot domain in
    match check_labels labels with
    | Some v => Ret v
    | None =>
        tld <- index_last labels ;;
        if Nat.ltb (length tld) 2 then
          Ret (false, "Top-level domain must be at least 2 characters"%string)
        else Ret (true, "Valid email address"%string)
    end.

Definition validate_email (v : pyval) : res verdict :=
  (* [not email] is evaluated first, and may raise *)
  nonempty <- truthy v ;;
  if (negb nonempty || negb (isinstance_str v))%bool then
    Ret (false, "Email cannot be empty"%string)
  else
    email <- method_strip v ;;
    if Nat.ltb 254 (length email) then
      Ret (false, "Email exceeds maximum length of 254 characters"%string)
    else if negb (Nat.eqb (count_char c_at email) 1) then
      Ret (false, "Email must contain exactly one @ symbol"%string)
    else
      (* try: local, domain = email.rsplit('@', 1)
         except ValueError: return False, "Invalid email format" *)
      match unpack2 (rsplit1 c_at email) with
      | Raise ValueError => Ret (false, "Invalid email format"%string)
      | Raise e => Raise e
      | Ret (local, domain) => validate_parts local domain
      end.

(** Calling the function on a literal, and the first component of its answer. *)

Definition validate (s : string) : res verdict :=
  validate_email (PyStr (of_string s)).

Definition is_valid (r : res verdict) : option bool :=
  match r with
  | Ret (b, _) => Some b
  | Raise _ => None
  end.

(** ** The command line

    [main] reads [sys.argv] (a list of strings), prints with [print] and
    ends in [sys.exit], which raises [SystemExit].

    Standard output is whatever object [sys.stdout] is.  A write to it is
    accepted or raises (a character the encoding cannot represent, a closed
    pipe), and that may depend on what was written before; nothing else of
    it is assumed.  The effect of [main] is the list of the texts whose
    write was accepted, in order, and the exception it ends with. *)

Definition device := list str -> str -> option exn.

(** A computation that writes: from the texts written so far to the texts
    written after it and its result. *)
Definition io (A : Type) : Type := list str -> list str * res A.

Definition io_lift {A} (r : res A) : io A := fun written => (written, r).

Definition io_bind {A B} (m : io A) (k : A -> io B) : io B :=
  fun written =>
    match m written with
    | (written', Ret a) => k a written'
    | (written', Raise e) => (written', Raise e)
    end.

Notation "x <-- m ;; k" := (io_bind m (fun x => k))
  (at level 61, m at next level, right associativity).
Notation "m ;;; k" := (io_bind m (fun _ => k))
  (at level 61, right associativity).

(** [sys.stdout.write(text)] *)
Definition write (stdout : device) (text : str) : io unit :=
  fun written =>
    match stdout written text with
    | Some e => (written, Raise e)
    | None => (written ++ [text], Ret tt)
    end.

(** [print(text)]: the text, then the line end, as two writes. *)
Definition print (stdout : device) (text : str) : io unit :=
  write stdout text ;;; write stdout [c_nl].

(** [sys.exit(code)] *)
Definition sys_exit (code : nat) : io unit :=
  io_lift (Raise (SystemExit code)).

(** [xs[i]] for an index from the front *)
Definition index {A} (xs : list A) (i : nat) : res A :=
  match nth_error xs i with
  | Some x => Ret x
  | None => Raise IndexError
  end.

Definition usage_1 : str :=
  of_string "Usage: python email_validator.py <email_address>".
Definition usage_2 : str :=
  of_string "Example: python email_validator.py user@example.com".

Definition status_valid : str := 10003%N :: of_string " VALID".     (* U+2713 *)
Definition status_invalid : str := 10007%N :: of_string " INVALID". (* U+2717 *)

(** The two payloads [main] prints for an argument and the answer of the
    validator: [f"{status}: {email}"] and [f"Reason: {message}"]. *)
Definition status_line (is_valid : bool) (email : str) : str :=
  (if is_valid then status_valid else status_invalid)
  ++ of_string ": " ++ email.
Definition reason_line (message : string) : str :=
  of_string "Reason: " ++ of_string message.

Definition main (stdout : device) (argv : list str) : io unit :=
  if negb (Nat.eqb (length argv) 2) then
    print stdout usage_1 ;;;
    print stdout usage_2 ;;;
    sys_exit 1
  else
    email <-- io_lift (index argv 1) ;;
    answer <-- io_lift (validate_email (PyStr email)) ;;
    let (is_valid, message) := answer in
    print stdout (status_line is_valid email) ;;;
    print stdout (reason_line message) ;;;
    sys_exit (if is_valid then 0 else 1).

(** A standard output that accepts every write. *)
Definition accepting : device := fun _ _ => None.

(** ** The test suite

    [email_validator_tests.py]: every test method calls [validate_email]
    on literals and asserts on the answer.  A method is modelled as the
    conjunction of its assertions; an assertion on a call that raised does
    not hold. *)

Definition lit (s : string) : pyval := PyStr (of_string s).

(** [is_valid, _ = validate_email(email); self.assertTrue(is_valid)] *)
Definition assert_valid (email : pyval) : bool :=
  match validate_email email with
  | Ret (b, _) => b
  | Raise _ => false
  end.

(** [is_valid, _ = validate_email(email); self.assertFalse(is_valid)] *)
Definition assert_invalid (email : pyval) : bool :=
  match validate_email email with
  | Ret (b, _) => negb b
  | Raise _ => false
  end.

Definition test_valid_simple_emails : bool :=
  forallb assert_valid
    (map lit ["user@example.com"; "test@domain.co.uk";
              "admin@subdomain.example.com"; "john.doe@company.org";
              "a@b.co"]%string).

Definition test_valid_plus_addressing : bool :=
  forallb assert_valid
    (map lit ["user+tag@example.com"; "name+filter@domain.org";
              "admin+test+multiple@site.com"]%string).

Definition test_valid_special_characters : bool :=
  forallb assert_valid
    (map lit ["user_name@example.com"; "first-last@domain.com";
              "user.name@example.com"; "user_name-123@test.org"]%string).

Definition test_valid_subdomains : bool :=
  forallb assert_valid
    (map lit ["user@mail.company.com"; "admin@deep.sub.domain.example.org";
              "test@a.b.c.d.com"]%string).

Definition test_invalid_missing_parts : bool :=
  forallb assert_invalid
    (map lit [""; "@example.com"; "user@"; "userexample.com"; "@"]%string).

Definition test_invalid_multiple_at_symbols : bool :=
  forallb assert_invalid
    (map lit ["user@@example.com"; "user@domain@example.com";
              "@@example.com"]%string).

Definition test_invalid_local_part : bool :=
  forallb assert_invalid
    (map lit [".user@example.com"; "user.@example.com";
              "user..name@example.com"; "user@name@example.com";
              "user name@example.com"; "user#name@example.com"]%string).

Definition test_invalid_domain_part : bool :=
  forallb assert_invalid
    (map lit ["user@.example.com"; "user@example.com."; "user@example..com";
              "user@example"; "user@.com"; "user@domain-.com";
              "user@-domain.com"]%string).

Definition test_invalid_tld : bool :=
  forallb assert_invalid
    (map lit ["user@example.c"; "user@example.123"]%string).

Definition test_length_constraints : bool :=
  let long_local := PyStr (repeat 97%N 65 ++ of_string "@example.com") in
  let long_email :=
    PyStr (of_string "user@" ++ repeat 97%N 250 ++ of_string ".com") in
  let long_label :=
    PyStr (of_string "user@" ++ repeat 97%N 64 ++ of_string ".com") in
  (match validate_email long_local with
   | Ret (is_valid, msg) =>
       (* assertFalse(is_valid); assertIn("Local part", msg) *)
       negb is_valid && contains (of_string "Local part") (of_string msg)
   | Raise _ => false
   end
   && assert_invalid long_email
   && assert_invalid long_label)%bool.

Definition test_edge_cases : bool :=
  (assert_valid (lit "a@b.co")
   && assert_valid (lit "user@domain123.com")
   && assert_valid (lit "user123@domain.com")
   && assert_invalid PyNone
   && assert_valid (lit "  user@example.com  "))%bool.

Definition test_real_world_examples : bool :=
  forallb assert_valid
    (map lit ["support@github.com"; "noreply@google.com";
              "hello+spam@stripe.com"; "admin@mail.company.co.uk";
              "user_123@test-domain.org"]%string).

(** [run_tests] returns [result.wasSuccessful()]: no test method failed. *)
Definition run_tests : bool :=
  forallb (fun t : bool => t)
    [test_valid_simple_emails; test_valid_plus_addressing;
     test_valid_special_characters; test_valid_subdomains;
     test_invalid_missing_parts; test_invalid_multiple_at_symbols;
     test_invalid_local_part; test_invalid_domain_part; test_invalid_tld;
     test_length_constraints; test_edge_cases; test_real_world_examples].

(** * Vocabulary of the properties

    Nothing below is part of the program: these definitions say what the
    patterns and the checks mean, in the terms the statements need. *)

(** ** Patterns as relations

    [matches r c c'] is the textbook reading of a pattern as a relation
    between cursors. *)

Section Pow.
Variable R : cursor -> cursor -> Prop.

(** [n] steps of [R] in a row *)
Fixpoint pow (n : nat) (c c' : cursor) : Prop :=
  match n with
  | 0 => c' = c
  | S n' => exists c1, R c c1 /\ pow n' c1 c'
  end.
End Pow.

Definition within (n : nat) (hi : option nat) : Prop :=
  match hi with
  | Some h => n <= h
  | None => True
  end.

Fixpoint matches (r : regex) : cursor -> cursor -> Prop :=
  match r with
  | Bol => fun c c' => c' = c /\ pos c = 0
  | Eol => fun c c' => c' = c /\ at_eol (rest c) = true
  | Cls p => fun c c' =>
      exists x, p x = true /\ rest c = x :: rest c' /\ pos c' = S (pos c)
  | Seq r1 r2 => fun c c' => exists c1, matches r1 c c1 /\ matches r2 c1 c'
  | Rep r' lo hi => fun c c' =>
      exists n, lo <= n /\ within n hi /\ pow (matches r') n c c'
  end.

(** Bounds as Python accepts them: [{m,n}] needs [m <= n]. *)
Fixpoint well_formed (r : regex) : bool :=
  match r with
  | Seq r1 r2 => (well_formed r1 && well_formed r2)%bool
  | Rep r' lo (Some h) => (Nat.leb lo h && well_formed r')%bool
  | Rep r' _ None => well_formed r'
  | _ => true
  end.

(** Every match of [r] consumes at least one character. *)
Fixpoint consuming (r : regex) : bool :=
  match r with
  | Bol | Eol => false
  | Cls _ => true
  | Seq r1 r2 => (consuming r1 || consuming r2)%bool
  | Rep r' lo _ => (Nat.ltb 0 lo && consuming r')%bool
  end.

(** The body of every unbounded repetition is consuming. *)
Fixpoint productive (r : regex) : bool :=
  match r with
  | Seq r1 r2 => (productive r1 && productive r2)%bool
  | Rep r' _ None => (consuming r' && productive r')%bool
  | Rep r' _ (Some _) => productive r'
  | _ => true
  end.

(** ** The two patterns in words *)

(** What may follow a run of alphanumerics in a matching local part: the
    end of the string (as [$] sees it), or a separator, another run, and
    so on. *)
Inductive local_tail : str -> Prop :=
| lt_eol e : at_eol e = true -> local_tail e
| lt_group x w t :
    is_sep x = true -> w <> [] -> forallb is_alnum w = true ->
    local_tail t -> local_tail (x :: w ++ t).

(** Alphanumeric runs joined by single separators. *)
Inductive local_runs : str -> Prop :=
| lr_one w : w <> [] -> forallb is_alnum w = true -> local_runs w
| lr_more w x t :
    w <> [] -> forallb is_alnum w = true -> is_sep x = true ->
    local_runs t -> local_runs (w ++ x :: t).

(** What may follow an alphanumeric of a matching local part. *)
Definition after_alnum (s : str) : Prop :=
  exists w t, s = w ++ t /\ forallb is_alnum w = true /\ local_tail t.

(** One label as the group of the pattern reads it: a single alphanumeric,
    or two of them around at most 61 alphanumerics and hyphens. *)
Definition label_shape (l : str) : Prop :=
  exists a, is_alnum a = true
    /\ (l = [a]
        \/ exists mid b, l = a :: mid ++ [b]
             /\ forallb is_alnum_hyphen mid = true /\ length mid <= 61
             /\ is_alnum b = true).

(** What may follow a dot in a matching domain: further labels with their
    dots, then the alphabetic top-level label up to the end of the string
    (as [$] sees it). *)
Inductive domain_tail : str -> Prop :=
| dt_tld tld e :
    2 <= length tld -> forallb is_alpha tld = true -> at_eol e = true ->
    domain_tail (tld ++ e)
| dt_label l t :
    label_shape l -> domain_tail t -> domain_tail (l ++ c_dot :: t).

(** ** The checks as propositions *)

Definition label_fine (label : str) : Prop :=
  length label <= 63 /\ startswith [c_hyphen] label = false
  /\ endswith [c_hyphen] label = false.

(** All checks on the two parts, as one proposition. *)
Definition parts_pass (local domain : str) : Prop :=
  1 <= length local <= 64
  /\ re_match local_pattern local = true
  /\ contains dotdot local = false
  /\ 3 <= length domain
  /\ re_match domain_pattern domain = true
  /\ Forall label_fine (split c_dot domain)
  /\ 2 <= length (last (split c_dot domain) []).

(** ** The accepted addresses in words *)

(** Labels, each followed by a dot, and then the top-level label. *)
Definition joined (labels : list str) (tld : str) : str :=
  concat (map (fun l => l ++ [c_dot]) labels) ++ tld.

(** A domain of one or more well-shaped labels and a top-level label of
    2 to 63 letters. *)
Definition domain_words (d : str) : Prop :=
  exists labels tld,
    d = joined labels tld /\ labels <> [] /\ Forall label_shape labels
    /\ forallb is_alpha tld = true /\ 2 <= length tld <= 63.

(** A local part of runs joined by single separators, with or without one
    newline after them. *)
Definition local_words (l : str) : Prop :=
  local_runs l \/ exists l0, l = l0 ++ [c_nl] /\ local_runs l0.

(** A write to standard output raised [e] after [written] had been
    accepted. *)
Definition write_failed (stdout : device) (written : list str) (e : exn)
  : Prop :=
  exists text, stdout written text = Some e.

(** The reasons [validate_email] can give. *)
Definition reachable_reasons : list string :=
  ["Email cannot be empty";
   "Email exceeds maximum length of 254 characters";
   "Email must contain exactly one @ symbol";
   "Local part must be 1-64 characters";
   "Local part contains invalid characters or format";
   "Domain part is too short";
   "Domain contains invalid characters or format";
   "Domain label exceeds 63 characters";
   "Valid email address"]%string.

(** * Properties *)

(** ** The test suite's addresses *)

Example sample_valid_addresses :
  map (fun s => is_valid (validate s))
      ["user@example.com"; "test@domain.co.uk"; "admin@subdomain.example.com";
       "john.doe@company.org"; "a@b.co"; "user+tag@example.com";
       "admin+test+multiple@site.com"; "user_name-123@test.org";
       "test@a.b.c.d.com"; "user_123@test-domain.org";
       "  user@example.com  "]%string
  = repeat (Some true) 11.
Proof. vm_compute. reflexivity. Qed.

Example sample_invalid_addresses :
  map (fun s => is_valid (validate s))
      [""; "@example.com"; "user@"; "userexample.com"; "@";
       "user@@example.com"; "user@domain@example.com"; "@@example.com";
       ".user@example.com"; "user.@example.com"; "user..name@example.com";
       "user name@example.com"; "user#name@example.com";
       "user@.example.com"; "user@example.com."; "user@example..com";
       "user@example"; "user@.com"; "user@domain-.com"; "user@-domain.com";
       "user@example.c"; "user@example.123"]%string
  = repeat (Some false) 22.
Proof. vm_compute. reflexivity. Qed.


(** ** Stripping *)

Lemma lstrip_split (s : str) :
  exists ws, s = ws ++ lstrip s /\ forallb is_space ws = true.
Proof.
  induction s as [|c t [ws [E F]]]; simpl.
  - exists []. split; reflexivity.
  - destruct (is_space c) eqn:Hc.
    + exists (c :: ws). simpl. rewrite Hc, F, <- E. split; reflexivity.
    + exists []. split; reflexivity.
Qed.

Lemma lstrip_spaces (ws s : str) :
  forallb is_space ws = true -> lstrip (ws ++ s) = lstrip s.
Proof.
  induction ws as [|c t IH]; simpl; intros H; [reflexivity|].
  apply andb_true_iff in H. destruct H as [Hc Ht].
  rewrite Hc. apply IH, Ht.
Qed.

Lemma lstrip_head (s : str) :
  match lstrip s with
  | [] => True
  | c :: _ => is_space c = false
  end.
Proof.
  induction s as [|c t IH]; simpl; [exact I|].
  destruct (is_space c) eqn:Hc; [exact IH | exact Hc].
Qed.

Lemma lstrip_fixed (s : str) :
  match s with [] => True | c :: _ => is_space c = false end ->
  lstrip s = s.
Proof. destruct s as [|c t]; simpl; intros H; [|rewrite H]; reflexivity. Qed.

Lemma lstrip_idem (s : str) : lstrip (lstrip s) = lstrip s.
Proof. apply lstrip_fixed, lstrip_head. Qed.

Lemma rstrip_split (s : str) :
  exists ws, s = rstrip s ++ ws /\ forallb is_space ws = true.
Proof.
  destruct (lstrip_split (rev s)) as [ws [E F]].
  exists (rev ws). split.
  - unfold rstrip. rewrite <- rev_app_distr, <- E, rev_involutive. reflexivity.
  - rewrite forallb_forall in *. intros x Hx. apply F, in_rev, Hx.
Qed.

Lemma rstrip_idem (s : str) : rstrip (rstrip s) = rstrip s.
Proof. unfold rstrip. rewrite rev_involutive, lstrip_idem. reflexivity. Qed.

(** The last character of a stripped string is not whitespace. *)
Lemma rstrip_last (s : str) :
  match rev (rstrip s) with
  | [] => True
  | c :: _ => is_space c = false
  end.
Proof. unfold rstrip. rewrite rev_involutive. apply lstrip_head. Qed.

Lemma rstrip_keeps_head (s : str) :
  match s with [] => True | c :: _ => is_space c = false end ->
  match rstrip s with [] => True | c :: _ => is_space c = false end.
Proof.
  intros H. destruct (rstrip_split s) as [ws [E _]].
  destruct (rstrip s) as [|c t]; [exact I|].
  rewrite E in H. exact H.
Qed.

Lemma strip_head (s : str) :
  match strip s with [] => True | c :: _ => is_space c = false end.
Proof. apply rstrip_keeps_head, lstrip_head. Qed.

Lemma strip_last (s : str) :
  match rev (strip s) with [] => True | c :: _ => is_space c = false end.
Proof. apply rstrip_last. Qed.

Lemma strip_idem (s : str) : strip (strip s) = strip s.
Proof.
  unfold strip at 1. rewrite (lstrip_fixed _ (strip_head s)).
  unfold strip. apply rstrip_idem.
Qed.

Lemma strip_nil : strip [] = [].
Proof. reflexivity. Qed.

Lemma strip_nonempty (s : str) : strip s <> [] -> s <> [].
Proof. intros H E. apply H. rewrite E. reflexivity. Qed.

(** Only whitespace is removed: the stripped string sits inside the
    original between two runs of whitespace. *)
Lemma strip_split (s : str) :
  exists l r, s = l ++ strip s ++ r
              /\ forallb is_space l = true /\ forallb is_space r = true.
Proof.
  destruct (lstrip_split s) as [l [E F]].
  destruct (rstrip_split (lstrip s)) as [r [E' F']].
  exists l, r. unfold strip. rewrite <- E', <- E. auto.
Qed.

Lemma count_char_app (c : char) (a b : str) :
  count_char c (a ++ b) = count_char c a + count_char c b.
Proof. induction a as [|x a IH]; simpl; [reflexivity|]. rewrite IH. lia. Qed.

Lemma count_char_excluded (p : char -> bool) (c : char) (s : str) :
  p c = false -> forallb p s = true -> count_char c s = 0.
Proof.
  intros Hc. induction s as [|x t IH]; simpl; intros H; [reflexivity|].
  apply andb_true_iff in H. destruct H as [Hx Ht].
  destruct (N.eqb_spec x c) as [->|_]; [congruence|]. simpl. apply IH, Ht.
Qed.

(** Stripping removes no [@]. *)
Lemma count_at_strip (s : str) :
  count_char c_at (strip s) = count_char c_at s.
Proof.
  destruct (strip_split s) as [l [r [E [Hl Hr]]]].
  rewrite E at 2. rewrite !count_char_app.
  rewrite (count_char_excluded is_space c_at l eq_refl Hl).
  rewrite (count_char_excluded is_space c_at r eq_refl Hr). lia.
Qed.

(** ** Splitting *)

Lemma rsplit1_spec (c : char) (s : str) :
  (count_char c s = 0 /\ rsplit1 c s = [s])
  \/ (exists l r, rsplit1 c s = [l; r] /\ s = l ++ c :: r
                  /\ count_char c r = 0).
Proof.
  induction s as [|x t IH]; simpl.
  - left. split; reflexivity.
  - destruct IH as [[H0 E] | [l [r [E [Es Hr]]]]].
    + rewrite E. destruct (N.eqb_spec x c) as [->|Hx].
      * right. exists [], t. repeat split; assumption.
      * left. split; [exact H0 | reflexivity].
    + rewrite E. right. exists (x :: l), r. rewrite Es. repeat split.
      exact Hr.
Qed.

(** With exactly one separator the split is the unique one around it. *)
Lemma rsplit1_one (c : char) (l r : str) :
  count_char c (l ++ c :: r) = 1 -> rsplit1 c (l ++ c :: r) = [l; r].
Proof.
  intros H. rewrite count_char_app in H. simpl in H.
  rewrite N.eqb_refl in H.
  assert (Hl : count_char c l = 0) by lia.
  assert (Hr : count_char c r = 0) by lia. clear H.
  induction l as [|x l IH]; simpl.
  - destruct (rsplit1_spec c r) as [[_ E] | [l' [r' [_ [E H']]]]].
    + rewrite E, N.eqb_refl. reflexivity.
    + rewrite E, count_char_app in Hr. simpl in Hr.
      rewrite N.eqb_refl in Hr. lia.
  - simpl in Hl. rewrite IH by lia. reflexivity.
Qed.

Lemma split_nonempty (c : char) (s : str) : split c s <> [].
Proof.
  destruct s as [|x t]; simpl; [discriminate|].
  destruct (N.eqb x c); [discriminate|].
  destruct (split c t); discriminate.
Qed.

Lemma index_last_total {A} (xs : list A) :
  xs <> [] -> exists x, index_last xs = Ret x /\ last xs x = x /\ In x xs.
Proof.
  intros H. destruct (exists_last H) as [ys [x E]]. subst xs.
  exists x. unfold index_last. rewrite rev_app_distr. simpl.
  rewrite last_last. repeat split. apply in_or_app. right. left. reflexivity.
Qed.

(** ** What the matcher computes *)

Lemma pow_add (R : cursor -> cursor -> Prop) (n m : nat) (c c1 c' : cursor) :
  pow R n c c1 -> pow R m c1 c' -> pow R (n + m) c c'.
Proof.
  revert c. induction n as [|n IH]; simpl; intros c H1 H2.
  - subst c1. exact H2.
  - destruct H1 as [c2 [H H1]]. exists c2. split; [exact H|].
    apply IH; assumption.
Qed.

Section RepeatSound.
Variable step : cursor -> list cursor.
Variable R : cursor -> cursor -> Prop.
Hypothesis step_sound : forall a b, In b (step a) -> R a b.

Lemma exactly_sound (n : nat) (c c' : cursor) :
  In c' (exactly step n c) -> pow R n c c'.
Proof.
  revert c. induction n as [|n IH]; simpl; intros c H.
  - destruct H as [H|[]]. symmetry. exact H.
  - apply in_flat_map in H. destruct H as [c1 [H1 H2]].
    exists c1. split; [apply step_sound, H1 | apply IH, H2].
Qed.

Lemma upto_sound (n : nat) (c c' : cursor) :
  In c' (upto step n c) -> exists m, m <= n /\ pow R m c c'.
Proof.
  revert c. induction n as [|n IH]; simpl; intros c H.
  - destruct H as [H|[]]. exists 0. split; [lia | symmetry; exact H].
  - destruct H as [H|H].
    + exists 0. split; [lia | symmetry; exact H].
    + apply in_flat_map in H. destruct H as [c1 [H1 H2]].
      destruct (IH _ H2) as [m [Hm Hp]].
      exists (S m). split; [lia|]. exists c1. split; [|exact Hp].
      apply step_sound, H1.
Qed.
End RepeatSound.

Lemma run_sound (r : regex) :
  well_formed r = true ->
  forall c c', In c' (run r c) -> matches r c c'.
Proof.
  induction r as [| |p|r1 IH1 r2 IH2|r' IH lo hi]; simpl; intros W c c' H.
  - destruct (Nat.eqb_spec (pos c) 0) as [E|_]; [|destruct H].
    destruct H as [H|[]]. split; [symmetry; exact H | exact E].
  - destruct (at_eol (rest c)) eqn:E; [|destruct H].
    destruct H as [H|[]]. split; [symmetry; exact H | reflexivity].
  - destruct (rest c) as [|x t] eqn:E; [destruct H|].
    destruct (p x) eqn:Hp; [|destruct H].
    destruct H as [H|[]]. subst c'. exists x. simpl. auto.
  - apply andb_true_iff in W. destruct W as [W1 W2].
    apply in_flat_map in H. destruct H as [c1 [H1 H2]].
    exists c1. split; [apply IH1 | apply IH2]; assumption.
  - assert (W' : well_formed r' = true).
    { destruct hi; [apply andb_true_iff in W; apply W | exact W]. }
    apply in_flat_map in H. destruct H as [c1 [H1 H2]].
    apply (exactly_sound _ (matches r') (IH W')) in H1.
    apply (upto_sound _ (matches r') (IH W')) in H2.
    destruct H2 as [m [Hm Hp]].
    exists (lo + m). split; [lia|]. split.
    + destruct hi as [h|]; simpl; [|exact I].
      apply andb_true_iff in W. destruct W as [W _].
      apply Nat.leb_le in W. lia.
    + eapply pow_add; eassumption.
Qed.

Lemma re_match_sound (r : regex) (s : str) :
  well_formed r = true -> re_match r s = true ->
  exists c', matches r (Cursor 0 s) c'.
Proof.
  unfold re_match. intros W H.
  destruct (run r (Cursor 0 s)) as [|c' l] eqn:E; [discriminate|].
  exists c'. apply run_sound; [exact W|]. rewrite E. left. reflexivity.
Qed.

(** ** Completeness of the matcher

    [run] reaches every cursor the pattern relates to the start, provided
    the body of each unbounded repetition consumes at least one character
    per round (true of both patterns): the cut-off of the repetition then
    loses nothing. *)

Section RepeatComplete.
Variable step : cursor -> list cursor.
Variable R : cursor -> cursor -> Prop.
Hypothesis step_complete : forall a b, R a b -> In b (step a).

Lemma exactly_complete (n : nat) (c c' : cursor) :
  pow R n c c' -> In c' (exactly step n c).
Proof.
  revert c. induction n as [|n IH]; simpl; intros c H.
  - left. symmetry. exact H.
  - destruct H as [c1 [H1 H2]]. apply in_flat_map. exists c1.
    split; [apply step_complete, H1 | apply IH, H2].
Qed.

Lemma upto_complete (n m : nat) (c c' : cursor) :
  m <= n -> pow R m c c' -> In c' (upto step n c).
Proof.
  revert m c. induction n as [|n IH]; intros m c Hm H.
  - assert (m = 0) by lia. subst m. simpl in H. left. symmetry. exact H.
  - destruct m as [|m]; simpl in H.
    + left. symmetry. exact H.
    + destruct H as [c1 [H1 H2]]. right. apply in_flat_map. exists c1.
      split; [apply step_complete, H1 | apply (IH m); [lia | exact H2]].
Qed.
End RepeatComplete.

Lemma pow_split (R : cursor -> cursor -> Prop) (n m : nat) (c c' : cursor) :
  pow R (n + m) c c' -> exists c1, pow R n c c1 /\ pow R m c1 c'.
Proof.
  revert c. induction n as [|n IH]; simpl; intros c H.
  - exists c. split; [reflexivity | exact H].
  - destruct H as [c2 [H1 H2]]. destruct (IH _ H2) as [c1 [H3 H4]].
    exists c1. split; [|exact H4]. exists c2. split; assumption.
Qed.

Lemma pow_shrinks (R : cursor -> cursor -> Prop) :
  (forall a b, R a b -> length (rest b) < length (rest a)) ->
  forall n c c', pow R n c c' -> length (rest c') + n <= length (rest c).
Proof.
  intros HR. induction n as [|n IH]; simpl; intros c c' H.
  - subst c'. lia.
  - destruct H as [c1 [H1 H2]]. apply HR in H1. apply IH in H2. lia.
Qed.

Lemma pow_never_grows (R : cursor -> cursor -> Prop) :
  (forall a b, R a b -> length (rest b) <= length (rest a)) ->
  forall n c c', pow R n c c' -> length (rest c') <= length (rest c).
Proof.
  intros HR. induction n as [|n IH]; simpl; intros c c' H.
  - subst c'. lia.
  - destruct H as [c1 [H1 H2]]. apply HR in H1. apply IH in H2. lia.
Qed.

Lemma matches_never_grows (r : regex) (c c' : cursor) :
  matches r c c' -> length (rest c') <= length (rest c).
Proof.
  revert c c'.
  induction r as [| |p|r1 IH1 r2 IH2|r' IH lo hi]; simpl; intros c c' H.
  - destruct H as [-> _]. lia.
  - destruct H as [-> _]. lia.
  - destruct H as [x [_ [E _]]]. rewrite E. simpl. lia.
  - destruct H as [c1 [H1 H2]]. apply IH1 in H1. apply IH2 in H2. lia.
  - destruct H as [n [_ [_ H]]]. exact (pow_never_grows _ IH _ _ _ H).
Qed.

Lemma matches_shrinks (r : regex) :
  consuming r = true ->
  forall c c', matches r c c' -> length (rest c') < length (rest c).
Proof.
  induction r as [| |p|r1 IH1 r2 IH2|r' IH lo hi]; simpl; intros K c c' H;
    try discriminate K.
  - destruct H as [x [_ [E _]]]. rewrite E. simpl. lia.
  - destruct H as [c1 [H1 H2]].
    pose proof (matches_never_grows _ _ _ H1).
    pose proof (matches_never_grows _ _ _ H2).
    apply orb_true_iff in K. destruct K as [K|K].
    + specialize (IH1 K _ _ H1). lia.
    + specialize (IH2 K _ _ H2). lia.
  - apply andb_true_iff in K. destruct K as [L K]. apply Nat.ltb_lt in L.
    destruct H as [n [Hn [_ H]]].
    apply (pow_shrinks _ (IH K)) in H. lia.
Qed.

Lemma run_complete (r : regex) :
  productive r = true ->
  forall c c', matches r c c' -> In c' (run r c).
Proof.
  induction r as [| |p|r1 IH1 r2 IH2|r' IH lo hi]; simpl; intros P c c' H.
  - destruct H as [-> E]. rewrite E. left. reflexivity.
  - destruct H as [-> E]. rewrite E. left. reflexivity.
  - destruct H as [x [Hx [E E']]]. rewrite E, Hx. left.
    destruct c' as [p' r']. simpl in *. rewrite E'. reflexivity.
  - apply andb_true_iff in P. destruct P as [P1 P2].
    destruct H as [c1 [H1 H2]]. apply in_flat_map. exists c1.
    split; [apply IH1 | apply IH2]; assumption.
  - destruct H as [n [Hn [Hh H]]].
    replace n with (lo + (n - lo)) in H by lia.
    apply pow_split in H. destruct H as [c1 [H1 H2]].
    assert (P' : productive r' = true).
    { destruct hi; [exact P | apply andb_true_iff in P; apply P]. }
    apply in_flat_map. exists c1. split.
    + apply (exactly_complete _ (matches r') (IH P')), H1.
    + apply (upto_complete _ (matches r') (IH P')) with (m := n - lo);
        [|exact H2].
      destruct hi as [h|]; simpl in Hh; [lia|].
      apply andb_true_iff in P. destruct P as [K _].
      apply (pow_shrinks _ (matches_shrinks _ K)) in H2. lia.
Qed.

(** For the patterns of the source, [re.match] succeeds exactly when the
    pattern relates the start of the string to some cursor. *)
Lemma re_match_iff (r : regex) (s : str) :
  well_formed r = true -> productive r = true ->
  re_match r s = true <-> exists c', matches r (Cursor 0 s) c'.
Proof.
  intros W P. split; [apply re_match_sound, W|].
  intros [c' H]. apply (run_complete _ P) in H. unfold re_match.
  destruct (run r (Cursor 0 s)); [destruct H | reflexivity].
Qed.

(** A repeated character class consumes a word of that class. *)
Lemma pow_cls (p : char -> bool) (n : nat) (c c' : cursor) :
  pow (matches (Cls p)) n c c' ->
  exists w, length w = n /\ forallb p w = true /\ rest c = w ++ rest c'.
Proof.
  revert c. induction n as [|n IH]; simpl; intros c H.
  - subst c'. exists []. auto.
  - destruct H as [c1 [[x [Hx [E _]]] H]].
    destruct (IH _ H) as [w [L [F E']]].
    exists (x :: w). simpl. rewrite Hx, F, L, E, E'. auto.
Qed.

(** ** The local-part pattern *)

Lemma plus_cls (p : char -> bool) (c c' : cursor) :
  matches (Plus (Cls p)) c c' ->
  exists w, w <> [] /\ forallb p w = true /\ rest c = w ++ rest c'.
Proof.
  intros [n [Hn [_ H]]]. destruct (pow_cls _ _ _ _ H) as [w [L [F E]]].
  exists w. repeat split; try assumption.
  intros ->. simpl in L. lia.
Qed.

Lemma local_groups (n : nat) (c c' : cursor) :
  pow (matches (Seq (Cls is_sep) (Plus (Cls is_alnum)))) n c c' ->
  local_tail (rest c') -> local_tail (rest c).
Proof.
  revert c. induction n as [|n IH]; intros c H T.
  - simpl in H. subst c'. exact T.
  - destruct H as [c1 [[c2 [[x [Hx [E _]]] HP]] H]].
    apply plus_cls in HP. destruct HP as [w [Hw [F E']]].
    rewrite E, E'. apply lt_group; try assumption.
    apply (IH _ H T).
Qed.

Lemma local_pattern_shape (s : str) :
  re_match local_pattern s = true ->
  exists w t, s = w ++ t /\ w <> [] /\ forallb is_alnum w = true
              /\ local_tail t.
Proof.
  intros H. apply re_match_sound in H; [|reflexivity].
  destruct H as [c' [c1 [[E1 _] [c2 [HP [c3 [[n [_ [_ HG]]] [E3 HE]]]]]]]].
  subst c1. apply plus_cls in HP. destruct HP as [w [Hw [F E]]].
  simpl in E. exists w, (rest c2). repeat split; try assumption.
  apply (local_groups _ _ _ HG). apply lt_eol, HE.
Qed.

Lemma contains_cons (p : str) (x : char) (s : str) :
  contains p (x :: s) = (startswith p (x :: s) || contains p s)%bool.
Proof. reflexivity. Qed.

Lemma startswith_cons (x y : char) (p s : str) :
  startswith (x :: p) (y :: s) = (N.eqb x y && startswith p s)%bool.
Proof. reflexivity. Qed.

Lemma alnum_not_dot (x : char) : is_alnum x = true -> N.eqb c_dot x = false.
Proof.
  intros H. destruct (N.eqb_spec c_dot x) as [<-|]; [discriminate H|].
  reflexivity.
Qed.

Lemma dotdot_after_alnum (w t : str) :
  forallb is_alnum w = true ->
  contains dotdot (w ++ t) = contains dotdot t.
Proof.
  induction w as [|x w IH]; simpl app; intros F; [reflexivity|].
  simpl in F. apply andb_true_iff in F. destruct F as [Hx F].
  rewrite contains_cons, (IH F). unfold dotdot at 1.
  rewrite startswith_cons, (alnum_not_dot _ Hx). reflexivity.
Qed.

Lemma local_tail_no_dotdot (t : str) :
  local_tail t -> contains dotdot t = false.
Proof.
  induction 1 as [e He | x w t Hx Hw F _ IH].
  - destruct e as [|a [|b e]]; try discriminate He; [reflexivity|].
    simpl. simpl in He. apply N.eqb_eq in He. subst a. reflexivity.
  - rewrite contains_cons, (dotdot_after_alnum _ _ F), IH.
    destruct w as [|y w]; [congruence|].
    simpl in F. apply andb_true_iff in F. destruct F as [Hy _].
    unfold dotdot. simpl app. rewrite !startswith_cons.
    rewrite (alnum_not_dot _ Hy), andb_false_r. reflexivity.
Qed.

(** A local part that matches the pattern has no two adjacent dots. *)
Lemma local_pattern_no_dotdot (s : str) :
  re_match local_pattern s = true -> contains dotdot s = false.
Proof.
  intros H. destruct (local_pattern_shape _ H) as [w [t [E [_ [F T]]]]].
  subst s. rewrite (dotdot_after_alnum _ _ F).
  apply local_tail_no_dotdot, T.
Qed.

(** ** Splitting at a character *)

Lemma split_app (c : char) (a b : str) :
  split c (a ++ c :: b) = split c a ++ split c b.
Proof.
  induction a as [|x a IH]; simpl.
  - rewrite N.eqb_refl. reflexivity.
  - destruct (N.eqb x c); rewrite IH; [reflexivity|].
    destruct (split c a) as [|l ls] eqn:E; [|reflexivity].
    exfalso. exact (split_nonempty _ _ E).
Qed.

Lemma split_whole (c : char) (s : str) :
  count_char c s = 0 -> split c s = [s].
Proof.
  induction s as [|x s IH]; simpl; intros H; [reflexivity|].
  destruct (N.eqb x c); [discriminate H|]. rewrite IH by exact H. reflexivity.
Qed.

Lemma startswith_true (p s : str) :
  startswith p s = true -> exists b, s = p ++ b.
Proof.
  revert s. induction p as [|x p IH]; intros s H.
  - exists s. reflexivity.
  - destruct s as [|y s]; [discriminate H|].
    rewrite startswith_cons in H. apply andb_true_iff in H.
    destruct H as [E H]. apply N.eqb_eq in E. subst y.
    destruct (IH _ H) as [b ->]. exists b. reflexivity.
Qed.

Lemma endswith_true (p s : str) :
  endswith p s = true -> exists a, s = a ++ p.
Proof.
  unfold endswith. intros H. apply startswith_true in H.
  destruct H as [b E]. exists (rev b).
  rewrite <- (rev_involutive s), E, rev_app_distr, rev_involutive.
  reflexivity.
Qed.

Lemma contains_true (p s : str) :
  contains p s = true -> exists a b, s = a ++ p ++ b.
Proof.
  induction s as [|x s IH]; simpl; intros H.
  - apply startswith_true in H. destruct H as [b E]. exists [], b. exact E.
  - apply orb_true_iff in H. destruct H as [H|H].
    + apply startswith_true in H. destruct H as [b E]. exists [], b. exact E.
    + destruct (IH H) as [a [b E]]. exists (x :: a), b. rewrite E.
      reflexivity.
Qed.

(** A dot in front, at the end, or next to another dot leaves an empty
    label. *)
Lemma empty_label (c : char) (d : str) :
  startswith [c] d = true \/ endswith [c] d = true
  \/ contains [c; c] d = true ->
  In [] (split c d).
Proof.
  intros [H|[H|H]].
  - apply startswith_true in H. destruct H as [b ->]. simpl.
    rewrite N.eqb_refl. left. reflexivity.
  - apply endswith_true in H. destruct H as [a ->].
    rewrite split_app. apply in_or_app. right. left. reflexivity.
  - apply contains_true in H. destruct H as [a [b ->]]. simpl app.
    rewrite split_app. apply in_or_app. right. simpl.
    rewrite N.eqb_refl. left. reflexivity.
Qed.

(** ** The domain pattern *)

Lemma alnum_is_alnum_hyphen (x : char) :
  is_alnum x = true -> is_alnum_hyphen x = true.
Proof. unfold is_alnum_hyphen. intros ->. reflexivity. Qed.

Lemma label_shape_chars (l : str) :
  label_shape l -> l <> [] /\ forallb is_alnum_hyphen l = true.
Proof.
  intros [a [Ha [->|[mid [b [-> [F [_ Hb]]]]]]]].
  - split; [discriminate|]. simpl.
    rewrite (alnum_is_alnum_hyphen _ Ha). reflexivity.
  - split; [discriminate|]. simpl.
    rewrite (alnum_is_alnum_hyphen _ Ha), forallb_app, F. simpl.
    rewrite (alnum_is_alnum_hyphen _ Hb). reflexivity.
Qed.

Lemma label_shape_length (l : str) : label_shape l -> length l <= 63.
Proof.
  intros [a [_ [->|[mid [b [-> [_ [L _]]]]]]]]; simpl; [lia|].
  rewrite length_app. simpl. lia.
Qed.

Lemma label_group_shape (c c' : cursor) :
  matches label_group c c' ->
  exists l, label_shape l /\ rest c = l ++ c_dot :: rest c'.
Proof.
  intros [c1 [[a [Ha [Ea _]]] [c2 [[n [_ [Hn HO]]] [x [Hx [Ex _]]]]]]].
  apply N.eqb_eq in Hx. subst x. simpl in Hn.
  destruct n as [|[|n]]; [| |lia].
  - simpl in HO. subst c2. exists [a]. split.
    + exists a. auto.
    + rewrite Ea, Ex. reflexivity.
  - destruct HO as [c3 [[c4 [[m [_ [Hm HR]]] [b [Hb [Eb _]]]]] E]].
    simpl in E. subst c3. simpl in Hm.
    destruct (pow_cls _ _ _ _ HR) as [mid [L [F Em]]].
    exists (a :: mid ++ [b]). split.
    + exists a. split; [exact Ha|]. right. exists mid, b.
      repeat split; try assumption. lia.
    + rewrite Ea, Em, Eb, Ex. simpl. rewrite <- app_assoc. reflexivity.
Qed.

Lemma domain_groups (n : nat) (c c' : cursor) :
  pow (matches label_group) n c c' ->
  domain_tail (rest c') -> domain_tail (rest c).
Proof.
  revert c. induction n as [|n IH]; intros c H T.
  - simpl in H. subst c'. exact T.
  - destruct H as [c1 [HG H]].
    apply label_group_shape in HG. destruct HG as [l [HL E]].
    rewrite E. apply dt_label; [exact HL|]. apply (IH _ H T).
Qed.

Lemma domain_pattern_shape (d : str) :
  re_match domain_pattern d = true ->
  exists l t, d = l ++ c_dot :: t /\ label_shape l /\ domain_tail t.
Proof.
  intros H. apply re_match_sound in H; [|reflexivity].
  destruct H as [c' [c1 [[E1 _] [c2 [[n [Hn [_ HG]]]
                 [c3 [[m [Hm [_ HT]]] [E3 HE]]]]]]]].
  subst c1.
  assert (T : domain_tail (rest c2)).
  { destruct (pow_cls _ _ _ _ HT) as [tld [L [F E]]].
    rewrite E. apply dt_tld; [lia | exact F | exact HE]. }
  destruct n as [|n]; [lia|].
  destruct HG as [c1 [HL HG]].
  apply label_group_shape in HL. destruct HL as [l [HL E]].
  simpl in E. exists l, (rest c1). repeat split; try assumption.
  apply (domain_groups _ _ _ HG T).
Qed.

Lemma last_app_nonempty {A} (a b : list A) (d : A) :
  b <> [] -> last (a ++ b) d = last b d.
Proof.
  intros Hb. induction a as [|x a IH]; [reflexivity|].
  simpl app. simpl last. rewrite IH.
  destruct (a ++ b) eqn:E; [|reflexivity].
  apply app_eq_nil in E. destruct E as [_ E]. contradiction.
Qed.

Lemma at_eol_no_dot (e : str) : at_eol e = true -> count_char c_dot e = 0.
Proof.
  destruct e as [|a [|b e]]; try discriminate; [reflexivity|].
  simpl. intros H. apply N.eqb_eq in H. subst a. reflexivity.
Qed.

(** The labels [split] finds in what follows a dot of a matching domain:
    none is empty, and the last one is the alphabetic top-level label
    (followed by the newline [$] tolerates, if there is one). *)
Lemma domain_tail_labels (t : str) :
  domain_tail t ->
  Forall (fun l => l <> []) (split c_dot t)
  /\ exists tld e, last (split c_dot t) [] = tld ++ e
       /\ 2 <= length tld /\ forallb is_alpha tld = true
       /\ at_eol e = true.
Proof.
  induction 1 as [tld e L F He | l t HL _ [IH1 IH2]].
  - rewrite split_whole.
    + split.
      * constructor; [|constructor]. destruct tld; [simpl in L; lia|].
        discriminate.
      * exists tld, e. auto.
    + rewrite count_char_app, (at_eol_no_dot _ He).
      rewrite (count_char_excluded is_alpha c_dot tld eq_refl F).
      reflexivity.
  - destruct (label_shape_chars HL) as [Hne Hch].
    rewrite split_app, split_whole
      by apply (count_char_excluded is_alnum_hyphen c_dot l eq_refl Hch).
    split.
    + constructor; assumption.
    + rewrite last_app_nonempty by apply split_nonempty. exact IH2.
Qed.

Lemma domain_pattern_labels (d : str) :
  re_match domain_pattern d = true ->
  0 < count_char c_dot d
  /\ Forall (fun l => l <> []) (split c_dot d)
  /\ exists tld e, last (split c_dot d) [] = tld ++ e
       /\ 2 <= length tld /\ forallb is_alpha tld = true
       /\ at_eol e = true.
Proof.
  intros H. destruct (domain_pattern_shape _ H) as [l [t [E [HL T]]]].
  split.
  - rewrite E, count_char_app. simpl. lia.
  - rewrite E. apply (domain_tail_labels (dt_label HL T)).
Qed.

Lemma at_eol_cases (e : str) : at_eol e = true -> e = [] \/ e = [c_nl].
Proof.
  destruct e as [|a [|b e]]; try discriminate; [left; reflexivity|].
  simpl. intros H. apply N.eqb_eq in H. subst a. right. reflexivity.
Qed.

(** The last label is what follows the last separator. *)
Lemma last_label_suffix (c : char) (d : str) :
  exists a, d = a ++ last (split c d) [].
Proof.
  destruct (rsplit1_spec c d) as [[C0 _] | [l [r [_ [E Cr]]]]].
  - exists []. rewrite (split_whole _ _ C0). reflexivity.
  - exists (l ++ [c]). rewrite E at 2. rewrite split_app.
    rewrite last_app_nonempty by apply split_nonempty.
    rewrite (split_whole _ _ Cr). simpl. rewrite <- app_assoc. exact E.
Qed.

(** ** The local-part pattern, in words *)

Lemma word_cls (p : char -> bool) (w t : str) (n : nat) :
  forallb p w = true ->
  pow (matches (Cls p)) (length w) (Cursor n (w ++ t))
      (Cursor (n + length w) t).
Proof.
  revert n. induction w as [|x w IH]; simpl; intros n F.
  - rewrite Nat.add_0_r. reflexivity.
  - apply andb_true_iff in F. destruct F as [Hx F].
    exists (Cursor (S n) (w ++ t)). split.
    + exists x. simpl. auto.
    + rewrite <- Nat.add_succ_comm. apply IH, F.
Qed.

Lemma word_plus (p : char -> bool) (w t : str) (n : nat) :
  w <> [] -> forallb p w = true ->
  matches (Plus (Cls p)) (Cursor n (w ++ t)) (Cursor (n + length w) t).
Proof.
  intros Hw F. exists (length w). split; [|split].
  - destruct w; [congruence | simpl; lia].
  - exact I.
  - apply word_cls, F.
Qed.

Lemma local_runs_matches (l e : str) :
  local_runs l -> at_eol e = true ->
  exists c', matches local_pattern (Cursor 0 (l ++ e)) c'.
Proof.
  intros HL He.
  assert (G : forall l, local_runs l -> forall n, exists w t k p,
    l ++ e = w ++ t ++ e /\ w <> [] /\ forallb is_alnum w = true
    /\ pow (matches (Seq (Cls is_sep) (Plus (Cls is_alnum)))) k
           (Cursor (n + length w) (t ++ e)) (Cursor p e)).
  { clear l HL. induction 1 as [w Hw F | w x t Hw F Hx _ IH]; intros n.
    - exists w, [], 0, (n + length w). simpl. auto.
    - destruct (IH (S (n + length w)))
        as [w' [t' [k [p [E [Hw' [F' HP]]]]]]].
      exists w, (x :: t), (S k), p. rewrite <- app_assoc.
      repeat split; try assumption.
      exists (Cursor (S (n + length w) + length w') (t' ++ e)).
      split; [|exact HP].
      exists (Cursor (S (n + length w)) (t ++ e)). split.
      + exists x. simpl. auto.
      + rewrite E. apply word_plus; assumption. }
  destruct (G l HL 0) as [w [t [k [p [E [Hw [F HP]]]]]]].
  exists (Cursor p e), (Cursor 0 (l ++ e)). split; [split; reflexivity|].
  exists (Cursor (0 + length w) (t ++ e)). split.
  - rewrite E. apply word_plus; assumption.
  - exists (Cursor p e). split.
    + exists k. split; [lia|]. split; [exact I | exact HP].
    + split; [reflexivity | exact He].
Qed.

Lemma local_shape_runs (w t : str) :
  w <> [] -> forallb is_alnum w = true -> local_tail t ->
  exists l e, w ++ t = l ++ e /\ local_runs l /\ at_eol e = true.
Proof.
  intros Hw F T. revert w Hw F.
  induction T as [e He | x w' t Hx Hw' F' _ IH]; intros w Hw F.
  - exists w, e. repeat split; [|exact He]. apply lr_one; assumption.
  - destruct (IH w' Hw' F') as [l [e [E [HL He]]]].
    exists (w ++ x :: l), e. repeat split; [| |exact He].
    + rewrite E, <- app_assoc. reflexivity.
    + apply lr_more; assumption.
Qed.

(** The local pattern, in words: runs of alphanumerics joined by single
    separators, and after them nothing or one newline. *)
Lemma local_pattern_iff (s : str) :
  re_match local_pattern s = true
  <-> local_runs s \/ exists l, s = l ++ [c_nl] /\ local_runs l.
Proof.
  split.
  - intros H. destruct (local_pattern_shape _ H) as [w [t [E [Hw [F T]]]]].
    destruct (local_shape_runs Hw F T) as [l [e [E' [HL He]]]].
    rewrite E, E'. destruct (at_eol_cases _ He) as [-> | ->].
    + left. rewrite app_nil_r. exact HL.
    + right. exists l. split; [reflexivity | exact HL].
  - intros H. apply re_match_iff; try reflexivity.
    destruct H as [H | [l [-> H]]].
    + rewrite <- (app_nil_r s). apply local_runs_matches; [exact H|].
      reflexivity.
    + apply local_runs_matches; [exact H | reflexivity].
Qed.

(** A local part of alphanumeric runs joined by single separators passes
    the pattern check. *)
Lemma local_runs_accepted (l : str) :
  local_runs l -> re_match local_pattern l = true.
Proof. intros H. apply local_pattern_iff. left. exact H. Qed.

Lemma after_alnum_step (x : char) (s : str) :
  after_alnum (x :: s) ->
  (x = c_nl /\ s = [])
  \/ (after_alnum s
      /\ (is_alnum x = true
          \/ (is_sep x = true
              /\ exists y s', s = y :: s' /\ is_alnum y = true))).
Proof.
  intros [w [t [E [F T]]]]. destruct w as [|a w].
  - simpl in E. subst t. inversion T as [e He | x' w t Hx Hw F' T' E'].
    + destruct (at_eol_cases _ He) as [E|E]; [discriminate E|].
      injection E as -> ->. left. split; reflexivity.
    + right. split; [exists w, t; auto|]. right. split; [exact Hx|].
      destruct w as [|y w]; [congruence|]. simpl in F'.
      apply andb_true_iff in F'. destruct F' as [Hy _].
      exists y, (w ++ t). split; [reflexivity | exact Hy].
  - injection E as <- ->. simpl in F. apply andb_true_iff in F.
    destruct F as [Ha F]. right. split; [exists w, t; auto|].
    left. exact Ha.
Qed.

Lemma after_alnum_drop (a r : str) :
  after_alnum (a ++ r) -> r <> [] -> after_alnum r.
Proof.
  induction a as [|z a IH]; simpl; intros H Hr; [exact H|].
  apply after_alnum_step in H. destruct H as [[_ E] | [H _]].
  - apply app_eq_nil in E. destruct E as [_ E]. contradiction.
  - apply IH; assumption.
Qed.

Lemma sep_not_alnum (x : char) : is_sep x = true -> is_alnum x = false.
Proof.
  unfold is_sep. intros H.
  repeat (apply orb_true_iff in H; destruct H as [H|H]);
    apply N.eqb_eq in H; subst x; reflexivity.
Qed.

(** The pattern check fails for a local part with a separator in front or
    at the end, with two separators in a row, or with a character that is
    neither alphanumeric nor a separator, other than a newline in last
    position. *)
Lemma local_pattern_rejects (l : str) :
  (exists x t, l = x :: t /\ is_sep x = true)
  \/ (exists t x, l = t ++ [x] /\ is_sep x = true)
  \/ (exists a x y b, l = a ++ x :: y :: b
                      /\ is_sep x = true /\ is_sep y = true)
  \/ (exists a x b, l = a ++ x :: b /\ is_alnum x = false
                    /\ is_sep x = false /\ (x = c_nl -> b <> [])) ->
  re_match local_pattern l = false.
Proof.
  intros H. destruct (re_match local_pattern l) eqn:R; [|reflexivity].
  exfalso. destruct (local_pattern_shape _ R) as [w [t [E [Hw [F T]]]]].
  assert (A : after_alnum l) by (exists w, t; auto).
  destruct H as [[x [u [E' Hx]]] | [[u [x [E' Hx]]]
               | [[a [x [y [b [E' [Hx Hy]]]]]] | [a [x [b [E' [H1 [H2 H3]]]]]]]]].
  - destruct w as [|z w]; [congruence|]. rewrite E in E'.
    injection E' as -> _. simpl in F. apply andb_true_iff in F.
    rewrite (sep_not_alnum _ Hx) in F. destruct F; discriminate.
  - rewrite E' in A. apply after_alnum_drop in A; [|discriminate].
    apply after_alnum_step in A.
    destruct A as [[-> _] | [_ [Ha | [_ [y [s' [E'' _]]]]]]];
      [discriminate Hx | | discriminate E''].
    rewrite (sep_not_alnum _ Hx) in Ha. discriminate.
  - rewrite E' in A. apply after_alnum_drop in A; [|discriminate].
    apply after_alnum_step in A.
    destruct A as [[_ E''] | [_ [Ha | [_ [z [s' [E'' Hz]]]]]]];
      [discriminate E'' | |].
    + rewrite (sep_not_alnum _ Hx) in Ha. discriminate.
    + injection E'' as <- _. rewrite (sep_not_alnum _ Hy) in Hz.
      discriminate.
  - rewrite E' in A. apply after_alnum_drop in A; [|discriminate].
    apply after_alnum_step in A.
    destruct A as [[Ex Eb] | [_ [Ha | [Hs _]]]]; [| congruence | congruence].
    exact (H3 Ex Eb).
Qed.

(** ** The checks, read back from the result *)

Lemma check_labels_none (labels : list str) :
  check_labels labels = None <-> Forall label_fine labels.
Proof.
  induction labels as [|l ls IH]; cbn [check_labels].
  - split; [constructor | reflexivity].
  - destruct (Nat.ltb_spec 63 (length l)) as [L|L].
    + split; [discriminate|]. intros H. inversion H as [|? ? [HL _] _].
      lia.
    + destruct (startswith [c_hyphen] l) eqn:S1; cbn [orb].
      * split; [discriminate|]. intros H.
        inversion H as [|? ? [_ [HL _]] _]. congruence.
      * destruct (endswith [c_hyphen] l) eqn:S2.
        -- split; [discriminate|]. intros H.
           inversion H as [|? ? [_ [_ HL]] _]. congruence.
        -- rewrite IH. split.
           ++ intros H. constructor; [|exact H]. repeat split; assumption.
           ++ intros H. inversion H. assumption.
Qed.

Lemma check_labels_some (labels : list str) (v : verdict) :
  check_labels labels = Some v ->
  v = (false, "Domain label exceeds 63 characters"%string)
  \/ v = (false, "Domain labels cannot start or end with hyphen"%string).
Proof.
  induction labels as [|l ls IH]; cbn [check_labels]; [discriminate|].
  destruct (Nat.ltb 63 (length l)).
  - intros [= <-]. left. reflexivity.
  - destruct (startswith [c_hyphen] l || endswith [c_hyphen] l)%bool.
    + intros [= <-]. right. reflexivity.
    + exact IH.
Qed.

Lemma index_last_split (d : str) :
  index_last (split c_dot d) = Ret (last (split c_dot d) []).
Proof.
  destruct (index_last_total (split_nonempty c_dot d)) as [x [E [_ _]]].
  rewrite E. f_equal.
  unfold index_last in E.
  destruct (rev (split c_dot d)) as [|y ys] eqn:R; [discriminate|].
  injection E as ->.
  rewrite <- (rev_involutive (split c_dot d)), R. simpl.
  rewrite last_last. reflexivity.
Qed.

Ltac branch H :=
  match goal with
  | |- context [if ?b then _ else _] => destruct b eqn:H
  end.

Lemma validate_parts_pass (local domain : str) :
  parts_pass local domain ->
  validate_parts local domain = Ret (true, "Valid email address"%string).
Proof.
  intros [[L1 L2] [RL [DD [LD [RD [FL LT]]]]]]. unfold validate_parts.
  replace (Nat.eqb (length local) 0) with false
    by (symmetry; apply Nat.eqb_neq; lia).
  replace (Nat.ltb 64 (length local)) with false
    by (symmetry; apply Nat.ltb_ge; lia).
  rewrite RL, DD. simpl.
  replace (Nat.eqb (length domain) 0) with false
    by (symmetry; apply Nat.eqb_neq; lia).
  replace (Nat.ltb (length domain) 3) with false
    by (symmetry; apply Nat.ltb_ge; lia).
  rewrite RD. simpl.
  apply check_labels_none in FL. rewrite FL, index_last_split. simpl.
  replace (Nat.ltb (length (last (split c_dot domain) [])) 2) with false
    by (symmetry; apply Nat.ltb_ge; lia).
  reflexivity.
Qed.

Lemma validate_parts_true (local domain : str) (r : string) :
  validate_parts local domain = Ret (true, r) ->
  parts_pass local domain /\ r = "Valid email address"%string.
Proof.
  unfold validate_parts, parts_pass.
  branch C1; [discriminate|]. branch C2; [discriminate|].
  branch C3; [discriminate|]. branch C4; [discriminate|].
  branch C5; [discriminate|].
  destruct (check_labels (split c_dot domain)) as [v|] eqn:CL.
  { destruct (check_labels_some _ CL) as [-> | ->]; discriminate. }
  rewrite index_last_split. simpl.
  branch C6; [discriminate|]. intros [= <-].
  apply orb_false_iff in C1, C4. destruct C1 as [C1 C1'], C4 as [C4 C4'].
  apply Nat.eqb_neq in C1. apply Nat.ltb_ge in C1', C4', C6.
  apply negb_false_iff in C2, C5. apply check_labels_none in CL.
  repeat split; try assumption; lia.
Qed.

Lemma validate_parts_total (local domain : str) :
  exists b r, validate_parts local domain = Ret (b, r).
Proof.
  unfold validate_parts.
  repeat (let H := fresh in branch H; [eexists _, _; reflexivity|]).
  destruct (check_labels (split c_dot domain)) as [[b r]|].
  - exists b, r. reflexivity.
  - rewrite index_last_split. simpl.
    let H := fresh in branch H; eexists _, _; reflexivity.
Qed.

(** ** The whole function *)

(** Past the guard, everything is computed from the stripped string. *)
Lemma validate_email_str (s : str) :
  s <> [] ->
  validate_email (PyStr s) =
    if Nat.ltb 254 (length (strip s)) then
      Ret (false, "Email exceeds maximum length of 254 characters"%string)
    else if negb (Nat.eqb (count_char c_at (strip s)) 1) then
      Ret (false, "Email must contain exactly one @ symbol"%string)
    else
      match unpack2 (rsplit1 c_at (strip s)) with
      | Raise ValueError => Ret (false, "Invalid email format"%string)
      | Raise e => Raise e
      | Ret (local, domain) => validate_parts local domain
      end.
Proof. destruct s as [|x t]; [congruence | reflexivity]. Qed.

Lemma validate_email_empty (v : pyval) :
  v = PyNone \/ (isinstance_str v = false /\ exists t, truthy v = Ret t)
  \/ v = PyStr [] ->
  validate_email v = Ret (false, "Email cannot be empty"%string).
Proof.
  intros [->|[[H [t T]]| ->]]; try reflexivity.
  destruct v as [|s|o]; try discriminate H; [reflexivity|].
  simpl in T. subst o. destruct t; reflexivity.
Qed.


(** With exactly one [@], the two parts are the ones around it. *)
Lemma validate_email_split (s local domain : str) :
  strip s = local ++ c_at :: domain ->
  count_char c_at (strip s) = 1 ->
  length (strip s) <= 254 ->
  validate_email (PyStr s) = validate_parts local domain.
Proof.
  intros E C L.
  assert (Hs : s <> []).
  { apply strip_nonempty. rewrite E. destruct local; discriminate. }
  rewrite (validate_email_str Hs).
  replace (Nat.ltb 254 (length (strip s))) with false
    by (symmetry; apply Nat.ltb_ge; exact L).
  rewrite C. simpl negb. cbv iota.
  rewrite E in C |- *. rewrite (rsplit1_one _ _ _ C). reflexivity.
Qed.

Lemma validate_email_true (v : pyval) (r : string) :
  validate_email v = Ret (true, r) ->
  exists s local domain,
    v = PyStr s /\ strip s = local ++ c_at :: domain
    /\ count_char c_at (strip s) = 1 /\ length (strip s) <= 254
    /\ parts_pass local domain /\ r = "Valid email address"%string.
Proof.
  intros H. destruct v as [|s|b].
  - discriminate H.
  - destruct s as [|x t]; [discriminate H|].
    assert (Hs : x :: t <> []) by discriminate.
    rewrite (validate_email_str Hs) in H.
    revert H. branch L; [discriminate|]. branch C; [discriminate|].
    apply Nat.ltb_ge in L. apply negb_false_iff, Nat.eqb_eq in C.
    destruct (rsplit1_spec c_at (strip (x :: t)))
      as [[C0 _] | [l [d [E [Es _]]]]]; [lia|].
    rewrite E. simpl unpack2. cbv iota beta. intros H.
    apply validate_parts_true in H. destruct H as [P ->].
    exists (x :: t), l, d.
    exact (conj eq_refl (conj Es (conj C (conj L (conj P eq_refl))))).
  - destruct b as [[|]|e]; discriminate H.
Qed.

(** On a string nothing raises. *)
Lemma validate_email_total (s : str) :
  exists b r, validate_email (PyStr s) = Ret (b, r).
Proof.
  destruct s as [|x t]; [eexists _, _; reflexivity|].
  rewrite validate_email_str by discriminate.
  repeat (let H := fresh in branch H; [eexists _, _; reflexivity|]).
  destruct (rsplit1 c_at (strip (x :: t))) as [|l [|d [|]]];
    simpl; try (eexists _, _; reflexivity).
  apply validate_parts_total.
Qed.


(** Every way [validate_parts] can answer. *)
Lemma validate_parts_cases (local domain : str) (v : verdict) :
  validate_parts local domain = Ret v ->
  v = (false, "Local part must be 1-64 characters"%string)
  \/ v = (false, "Local part contains invalid characters or format"%string)
  \/ (v = (false, "Local part cannot contain consecutive dots"%string)
      /\ re_match local_pattern local = true
      /\ contains dotdot local = true)
  \/ v = (false, "Domain part is too short"%string)
  \/ v = (false, "Domain contains invalid characters or format"%string)
  \/ v = (false, "Domain label exceeds 63 characters"%string)
  \/ v = (false, "Domain labels cannot start or end with hyphen"%string)
  \/ v = (false, "Top-level domain must be at least 2 characters"%string)
  \/ v = (true, "Valid email address"%string).
Proof.
  unfold validate_parts.
  branch C1; [intros [= <-]; tauto|].
  branch C2; [intros [= <-]; tauto|].
  branch C3; [intros [= <-]; apply negb_false_iff in C2; tauto|].
  branch C4; [intros [= <-]; tauto|].
  branch C5; [intros [= <-]; tauto|].
  destruct (check_labels (split c_dot domain)) as [w|] eqn:CL.
  { intros [= <-]. destruct (check_labels_some _ CL) as [-> | ->]; tauto. }
  rewrite index_last_split. simpl.
  branch C6; intros [= <-]; tauto.
Qed.

(** Every way [validate_email] can answer when it does not answer from
    [validate_parts]. *)
Lemma validate_email_cases (v : pyval) (w : verdict) :
  validate_email v = Ret w ->
  w = (false, "Email cannot be empty"%string)
  \/ w = (false, "Email exceeds maximum length of 254 characters"%string)
  \/ w = (false, "Email must contain exactly one @ symbol"%string)
  \/ exists local domain, validate_parts local domain = Ret w.
Proof.
  destruct v as [|s|b].
  - intros [= <-]. tauto.
  - destruct s as [|x t]; [intros [= <-]; tauto|].
    rewrite validate_email_str by discriminate.
    branch L; [intros [= <-]; tauto|].
    branch C; [intros [= <-]; tauto|].
    apply negb_false_iff, Nat.eqb_eq in C.
    destruct (rsplit1_spec c_at (strip (x :: t)))
      as [[C0 _] | [l [d [E _]]]]; [lia|].
    rewrite E. simpl unpack2. cbv iota beta. intros H.
    right. right. right. exists l, d. exact H.
  - destruct b as [[|]|e]; intros [= <-]; tauto.
Qed.

(** The two parts around a single [@] are determined by the string. *)
Lemma parts_unique (e l d l' d' : str) :
  count_char c_at e = 1 ->
  e = l ++ c_at :: d -> e = l' ++ c_at :: d' -> l = l' /\ d = d'.
Proof.
  intros C E E'. pose proof C as C'. rewrite E in C. rewrite E' in C'.
  apply rsplit1_one in C, C'. rewrite <- E in C. rewrite <- E' in C'.
  rewrite C in C'. injection C' as -> ->. split; reflexivity.
Qed.

(** An address is rejected as soon as its parts fail one of the checks. *)
Lemma rejected_unless_pass (s : str) :
  (forall local domain,
      strip s = local ++ c_at :: domain ->
      count_char c_at (strip s) = 1 -> length (strip s) <= 254 ->
      parts_pass local domain -> False) ->
  exists r, validate_email (PyStr s) = Ret (false, r).
Proof.
  intros N. destruct (validate_email_total s) as [[|] [r V]].
  - exfalso. apply validate_email_true in V.
    destruct V as [s' [l [d [[= <-] [E [C [L [P _]]]]]]]].
    exact (N l d E C L P).
  - exists r. exact V.
Qed.

(** The part of C6 the code does enforce: with one [@], a local part with
    a separator in front or at the end, two separators in a row, or a
    character outside [[A-Za-z0-9._+-]] that is not a newline in last
    position makes the address invalid. *)
Lemma local_part_rejected (s local domain : str) :
  strip s = local ++ c_at :: domain ->
  count_char c_at (strip s) = 1 ->
  (exists x t, local = x :: t /\ is_sep x = true)
  \/ (exists t x, local = t ++ [x] /\ is_sep x = true)
  \/ (exists a x y b, local = a ++ x :: y :: b
                      /\ is_sep x = true /\ is_sep y = true)
  \/ (exists a x b, local = a ++ x :: b /\ is_alnum x = false
                    /\ is_sep x = false /\ (x = c_nl -> b <> [])) ->
  exists r, validate_email (PyStr s) = Ret (false, r).
Proof.
  intros E C H. apply rejected_unless_pass.
  intros l d E' _ _ [_ [RL _]].
  destruct (@parts_unique (strip s) local domain l d C E E') as [<- <-].
  rewrite (local_pattern_rejects H) in RL. discriminate RL.
Qed.

Example local_part_space_rejected :
  exists r, validate_email (PyStr (of_string "user name@example.com"))
            = Ret (false, r).
Proof.
  apply (@local_part_rejected (of_string "user name@example.com")
           (of_string "user name") (of_string "example.com")).
  - reflexivity.
  - reflexivity.
  - do 3 right. exists (of_string "user"), 32%N, (of_string "name").
    repeat split; discriminate.
Qed.

(** * The claims *)

(** C1 (as amended).  The guard sits before the trim, and its first
    operand is the truth test of the argument.  [None], the empty string,
    and a value that is not a string and whose truth test returns (either
    way) are answered with "Email cannot be empty".  A non-empty string
    made of whitespace only passes the guard, is trimmed to nothing and is
    rejected for having no [@]. *)
Theorem C1_empty_guard (v : pyval) :
  (v = PyNone
   \/ (isinstance_str v = false /\ exists t, truthy v = Ret t)
   \/ v = PyStr [] ->
   validate_email v = Ret (false, "Email cannot be empty"%string))
  /\ (forall s, v = PyStr s -> s <> [] -> strip s = [] ->
      validate_email v
      = Ret (false, "Email must contain exactly one @ symbol"%string)).
Proof.
  split; [apply validate_email_empty|].
  intros s -> Hs E. rewrite (validate_email_str Hs), E. reflexivity.
Qed.

Lemma C1_empty_guard_witness :
  validate_email PyNone = Ret (false, "Email cannot be empty"%string)
  /\ validate_email (PyObj (Ret true))
     = Ret (false, "Email cannot be empty"%string)
  /\ validate_email (PyStr (of_string "  "))
     = Ret (false, "Email must contain exactly one @ symbol"%string).
Proof.
  split; [|split].
  - apply (proj1 (C1_empty_guard PyNone)). left. reflexivity.
  - apply (proj1 (C1_empty_guard (PyObj (Ret true)))). right. left.
    split; [reflexivity|]. exists true. reflexivity.
  - apply (proj2 (C1_empty_guard (PyStr (of_string "  "))) (of_string "  ")).
    + reflexivity.
    + discriminate.
    + reflexivity.
Defined.

(** C1 as stated fails: a single space is empty after trimming, yet the
    reason is not "Email cannot be empty". *)
Lemma C1_counterexample :
  strip (of_string " ") = []
  /\ validate_email (PyStr (of_string " "))
     <> Ret (false, "Email cannot be empty"%string).
Proof. split; [reflexivity | discriminate]. Qed.

(** C2 (as amended).  The verdict never depends on surrounding whitespace,
    and neither does the reason unless the string is non-empty and consists
    of whitespace only. *)
Theorem C2_strip_invariance (s : str) :
  (exists b r r', validate_email (PyStr s) = Ret (b, r)
                  /\ validate_email (PyStr (strip s)) = Ret (b, r'))
  /\ (strip s <> [] \/ s = [] ->
      validate_email (PyStr s) = validate_email (PyStr (strip s))).
Proof.
  assert (K : strip s <> [] ->
              validate_email (PyStr s) = validate_email (PyStr (strip s))).
  { intros H. rewrite (validate_email_str (strip_nonempty H)).
    rewrite (validate_email_str H), strip_idem. reflexivity. }
  split.
  - destruct (validate_email_total s) as [b [r V]].
    destruct (validate_email_total (strip s)) as [b' [r' V']].
    exists b, r, r'. split; [exact V|]. rewrite V'. do 2 f_equal.
    destruct (strip s) as [|x t] eqn:E.
    + injection V' as <- _. destruct s as [|y u].
      * injection V as <- _. reflexivity.
      * rewrite validate_email_str, E in V by discriminate.
        injection V as <- _. reflexivity.
    + rewrite <- K, V in V' by discriminate.
      injection V' as <- _. reflexivity.
  - intros [H| ->]; [exact (K H) | reflexivity].
Qed.

Lemma C2_strip_invariance_witness :
  validate_email (PyStr (of_string "  a@b.co  "))
  = validate_email (PyStr (strip (of_string "  a@b.co  "))).
Proof.
  apply (proj2 (C2_strip_invariance (of_string "  a@b.co  "))).
  left. discriminate.
Defined.

(** C2 as stated fails: for a single space the two reasons differ. *)
Lemma C2_counterexample :
  validate_email (PyStr (of_string " "))
  <> validate_email (PyStr (strip (of_string " "))).
Proof. discriminate. Qed.




(** C4.  A string whose trimmed form does not contain exactly one [@]
    (none, two, more, adjacent ones) is invalid; when the emptiness guard
    and the overall-length guard let it through, the reason is "Email must
    contain exactly one @ symbol". *)
Theorem C4_single_at (s : str) :
  count_char c_at (strip s) <> 1 ->
  (exists r, validate_email (PyStr s) = Ret (false, r))
  /\ (s <> [] -> length (strip s) <= 254 ->
      validate_email (PyStr s)
      = Ret (false, "Email must contain exactly one @ symbol"%string)).
Proof.
  intros C. split.
  - apply rejected_unless_pass. intros l d _ C' _ _. contradiction.
  - intros Hs L. rewrite (validate_email_str Hs).
    replace (Nat.ltb 254 (length (strip s))) with false
      by (symmetry; apply Nat.ltb_ge; exact L).
    apply Nat.eqb_neq in C. rewrite C. reflexivity.
Qed.

Lemma C4_single_at_witness :
  validate_email (PyStr (of_string "user@@example.com"))
  = Ret (false, "Email must contain exactly one @ symbol"%string).
Proof.
  apply (C4_single_at (of_string "user@@example.com")).
  - vm_compute. discriminate.
  - discriminate.
  - apply Nat.leb_le. reflexivity.
Defined.

(** C5.  Too long is invalid: a trimmed string of more than 254 characters,
    a local part of more than 64, or a domain label of more than 63.  The
    last bound is the explicit check's doing where the top-level label is
    concerned: the domain pattern itself accepts a top-level label of any
    length. *)
Theorem C5_length_bounds :
  (forall s : str,
      254 < length (strip s)
      \/ (exists local domain,
             strip s = local ++ c_at :: domain
             /\ count_char c_at (strip s) = 1
             /\ (64 < length local
                 \/ exists label, In label (split c_dot domain)
                                  /\ 63 < length label)) ->
      exists r, validate_email (PyStr s) = Ret (false, r))
  /\ (let d := of_string "b." ++ repeat 97%N 64 in
      re_match domain_pattern d = true
      /\ length (last (split c_dot d) []) = 64
      /\ validate_email (PyStr (of_string "a@" ++ d))
         = Ret (false, "Domain label exceeds 63 characters"%string)).
Proof.
  split.
  - intros s H. apply rejected_unless_pass.
    intros l d E C L [[_ L2] [_ [_ [_ [_ [FL _]]]]]].
    destruct H as [H | [l' [d' [E' [_ H]]]]]; [lia|].
    destruct (@parts_unique (strip s) l d l' d' C E E') as [<- <-].
    destruct H as [H | [label [HI HL]]]; [lia|].
    rewrite Forall_forall in FL. destruct (FL _ HI) as [HL' _]. lia.
  - vm_compute. repeat split; reflexivity.
Qed.

Lemma C5_length_bounds_witness :
  exists r, validate_email (PyStr (repeat 97%N 65 ++ of_string "@example.com"))
            = Ret (false, r).
Proof.
  apply (proj1 C5_length_bounds). right.
  exists (repeat 97%N 65), (of_string "example.com").
  split; [reflexivity|]. split; [reflexivity|].
  left. apply Nat.ltb_lt. reflexivity.
Defined.

(** C7.  A malformed domain is invalid.  The domain is the part of the
    trimmed string after its single [@]; it is rejected when it has no dot,
    a dot in front or at the end, two dots in a row, a label with a hyphen
    at either end, or a last label that is shorter than two characters or
    has a character that is not a letter. *)
Theorem C7_domain_shape (s local domain : str) :
  strip s = local ++ c_at :: domain ->
  count_char c_at (strip s) = 1 ->
  count_char c_dot domain = 0
  \/ startswith [c_dot] domain = true
  \/ endswith [c_dot] domain = true
  \/ contains dotdot domain = true
  \/ (exists label, In label (split c_dot domain)
                    /\ (startswith [c_hyphen] label = true
                        \/ endswith [c_hyphen] label = true))
  \/ length (last (split c_dot domain) []) < 2
  \/ (exists x, In x (last (split c_dot domain) []) /\ is_alpha x = false) ->
  exists r, validate_email (PyStr s) = Ret (false, r).
Proof.
  intros E C H. apply rejected_unless_pass.
  intros l d E' _ _ [_ [_ [_ [_ [RD [FL LT]]]]]].
  destruct (@parts_unique (strip s) local domain l d C E E') as [<- <-].
  destruct (domain_pattern_labels _ RD)
    as [ND [NE [tld [e [ET [_ [FA HE]]]]]]].
  rewrite Forall_forall in NE, FL.
  destruct H as [H|[H|[H|[H|[[label [HI H]]|[H|[x [HI Hx]]]]]]]].
  - lia.
  - apply (NE []); [|reflexivity]. apply empty_label. auto.
  - apply (NE []); [|reflexivity]. apply empty_label. auto.
  - apply (NE []); [|reflexivity]. apply empty_label. auto.
  - destruct (FL _ HI) as [_ [S1 S2]]. destruct H; congruence.
  - lia.
  - rewrite ET in HI. apply in_app_or in HI. destruct HI as [HI|HI].
    + rewrite forallb_forall in FA. rewrite (FA _ HI) in Hx. discriminate.
    + destruct (at_eol_cases _ HE) as [-> | ->]; [destruct HI|].
      destruct (last_label_suffix c_dot domain) as [a Ea].
      rewrite ET in Ea. pose proof (strip_last s) as SL.
      rewrite E, Ea in SL.
      replace (local ++ c_at :: a ++ tld ++ [c_nl])
        with ((local ++ c_at :: a ++ tld) ++ [c_nl]) in SL
        by (rewrite <- !app_assoc; simpl; rewrite <- !app_assoc; reflexivity).
      rewrite rev_app_distr in SL. simpl in SL. discriminate SL.
Qed.

Lemma C7_domain_shape_witness :
  exists r, validate_email (PyStr (of_string "user@example.123"))
            = Ret (false, r).
Proof.
  apply (@C7_domain_shape (of_string "user@example.123")
           (of_string "user") (of_string "example.123")).
  - reflexivity.
  - reflexivity.
  - do 6 right. exists 49%N. split; [|reflexivity].
    left. reflexivity.
Defined.

(** C8.  An input that passes every check is answered with
    [(True, "Valid email address")]: the trimmed string has at most 254
    characters and exactly one [@]; the local part has 1 to 64 characters,
    matches the local pattern and has no two dots in a row; the domain has
    at least 3 characters and matches the domain pattern; no label has more
    than 63 characters or a hyphen at either end; the last label has at
    least 2 characters. *)
Theorem C8_all_checks_pass (s local domain : str) :
  strip s = local ++ c_at :: domain ->
  length (strip s) <= 254 ->
  count_char c_at (strip s) = 1 ->
  1 <= length local <= 64 ->
  re_match local_pattern local = true ->
  contains dotdot local = false ->
  3 <= length domain ->
  re_match domain_pattern domain = true ->
  (forall label, In label (split c_dot domain) ->
     length label <= 63 /\ startswith [c_hyphen] label = false
     /\ endswith [c_hyphen] label = false) ->
  2 <= length (last (split c_dot domain) []) ->
  validate_email (PyStr s) = Ret (true, "Valid email address"%string).
Proof.
  intros E L C LL RL DD LD RD FL LT.
  rewrite (validate_email_split _ _ _ E C L).
  apply validate_parts_pass. unfold parts_pass, label_fine.
  rewrite Forall_forall. auto 10.
Qed.

Lemma C8_all_checks_pass_witness :
  validate_email (PyStr (of_string "user@example.com"))
  = Ret (true, "Valid email address"%string).
Proof.
  apply (@C8_all_checks_pass (of_string "user@example.com")
           (of_string "user") (of_string "example.com")).
  - reflexivity.
  - apply Nat.leb_le. reflexivity.
  - reflexivity.
  - split; apply Nat.leb_le; reflexivity.
  - reflexivity.
  - reflexivity.
  - apply Nat.leb_le. reflexivity.
  - reflexivity.
  - intros label [<-|[<-|[]]];
      (split; [apply Nat.leb_le; reflexivity | split; reflexivity]).
  - apply Nat.leb_le. reflexivity.
Defined.

(** C9.  The reason "Local part cannot contain consecutive dots" is never
    given: a local part with two dots in a row has already failed the
    pattern check before the explicit test is reached. *)
Theorem C9_consecutive_dots_unreachable :
  (forall local, re_match local_pattern local = true ->
                 contains dotdot local = false)
  /\ (forall v b,
        validate_email v
        <> Ret (b, "Local part cannot contain consecutive dots"%string)).
Proof.
  split; [exact local_pattern_no_dotdot|].
  intros v b H. apply validate_email_cases in H.
  destruct H as [H|[H|[H|[l [d H]]]]]; try discriminate H.
  apply validate_parts_cases in H.
  destruct H as [H|[H|[[_ [R D]]|[H|[H|[H|[H|[H|H]]]]]]]];
    try discriminate H.
  rewrite (local_pattern_no_dotdot _ R) in D. discriminate D.
Qed.

Lemma C9_consecutive_dots_unreachable_witness :
  contains dotdot (of_string "john.doe") = false.
Proof.
  apply (proj1 C9_consecutive_dots_unreachable). reflexivity.
Defined.

(** C10.  The reason "Invalid email format" is never given: the handler of
    the unpacking is dead code, because the split at the last [@] yields
    two parts whenever the count of [@] is one. *)
Theorem C10_invalid_format_unreachable :
  (forall email, count_char c_at email = 1 ->
                 exists local domain,
                   unpack2 (rsplit1 c_at email) = Ret (local, domain))
  /\ (forall v b,
        validate_email v <> Ret (b, "Invalid email format"%string)).
Proof.
  split.
  - intros email C.
    destruct (rsplit1_spec c_at email) as [[C0 _] | [l [d [E _]]]]; [lia|].
    exists l, d. rewrite E. reflexivity.
  - intros v b H. apply validate_email_cases in H.
    destruct H as [H|[H|[H|[l [d H]]]]]; try discriminate H.
    apply validate_parts_cases in H.
    destruct H as [H|[H|[[H _]|[H|[H|[H|[H|[H|H]]]]]]]]; discriminate H.
Qed.

Lemma C10_invalid_format_unreachable_witness :
  exists local domain,
    unpack2 (rsplit1 c_at (of_string "a@b.co")) = Ret (local, domain).
Proof.
  apply (proj1 C10_invalid_format_unreachable). reflexivity.
Defined.

(** C6, at the input where the code departs from it.  The local part
    [user\n] has a character outside [[A-Za-z0-9._+-]], and the address is
    accepted all the same: [$] also holds just before a final newline, so
    the local pattern lets a local part end in one. *)
Theorem C6_newline_accepted :
  let local := of_string "user" ++ [c_nl] in
  existsb (fun x => negb (is_alnum x || is_sep x)) local = true
  /\ re_match local_pattern local = true
  /\ validate_email (PyStr (local ++ of_string "@example.com"))
     = Ret (true, "Valid email address"%string).
Proof. vm_compute. repeat split; reflexivity. Qed.

(** * Further properties of the validator and of its caller *)

(** ** The domain pattern, in words *)

Lemma label_group_matches (l r : str) (n : nat) :
  label_shape l ->
  exists p, matches label_group (Cursor n (l ++ c_dot :: r)) (Cursor p r).
Proof.
  intros [a [Ha [->|[mid [b [-> [F [L Hb]]]]]]]].
  - exists (S (S n)), (Cursor (S n) (c_dot :: r)). split.
    + exists a. simpl. auto.
    + exists (Cursor (S n) (c_dot :: r)). split.
      * exists 0. simpl. auto.
      * exists c_dot. simpl. auto.
  - exists (S (S (S n + length mid))), (Cursor (S n) (mid ++ b :: c_dot :: r)).
    split.
    + exists a. simpl. rewrite <- app_assoc. auto.
    + exists (Cursor (S (S n + length mid)) (c_dot :: r)). split.
      * exists 1. split; [lia|]. split; [simpl; lia|].
        exists (Cursor (S (S n + length mid)) (c_dot :: r)).
        split; [|reflexivity].
        exists (Cursor (S n + length mid) (b :: c_dot :: r)). split.
        -- exists (length mid). split; [lia|]. split; [exact L|].
           apply word_cls, F.
        -- exists b. simpl. auto.
      * exists c_dot. simpl. auto.
Qed.

Lemma labels_matches (labels : list str) (r : str) :
  Forall label_shape labels ->
  forall n, exists p,
    pow (matches label_group) (length labels)
        (Cursor n (joined labels r)) (Cursor p r).
Proof.
  unfold joined. induction 1 as [|l ls HL _ IH]; intros n.
  - exists n. reflexivity.
  - destruct (label_group_matches
                (concat (map (fun l => l ++ [c_dot]) ls) ++ r) n HL)
      as [p1 H1].
    destruct (IH p1) as [p H2]. exists p.
    exists (Cursor p1 (concat (map (fun l => l ++ [c_dot]) ls) ++ r)).
    split; [|exact H2].
    simpl. rewrite <- !app_assoc. exact H1.
Qed.

Lemma domain_words_matches (labels : list str) (tld e : str) :
  labels <> [] -> Forall label_shape labels ->
  forallb is_alpha tld = true -> 2 <= length tld -> at_eol e = true ->
  re_match domain_pattern (joined labels tld ++ e) = true.
Proof.
  intros Hne HL F L He. apply re_match_iff; try reflexivity.
  destruct (labels_matches (tld ++ e) HL 0) as [p HP].
  exists (Cursor (p + length tld) e), (Cursor 0 (joined labels tld ++ e)).
  split; [split; reflexivity|].
  exists (Cursor p (tld ++ e)). split.
  - exists (length labels). split; [|split; [exact I|]].
    + destruct labels; [congruence | simpl; lia].
    + unfold joined in *. rewrite <- app_assoc. exact HP.
  - exists (Cursor (p + length tld) e). split.
    + exists (length tld). split; [exact L|]. split; [exact I|].
      apply word_cls, F.
    + split; [reflexivity | exact He].
Qed.

Lemma domain_tail_joined (t : str) :
  domain_tail t ->
  exists labels tld e,
    t = joined labels tld ++ e /\ Forall label_shape labels
    /\ forallb is_alpha tld = true /\ 2 <= length tld /\ at_eol e = true.
Proof.
  induction 1 as [tld e L F He | l t HL _ [ls [tld [e [E [HLs R]]]]]].
  - exists [], tld, e. repeat split; try assumption. constructor.
  - exists (l :: ls), tld, e. split; [|split; [constructor; assumption|exact R]].
    rewrite E. unfold joined. simpl. rewrite <- !app_assoc. reflexivity.
Qed.

(** The domain pattern accepts exactly: one or more labels, each a single
    alphanumeric or up to 63 alphanumerics and hyphens between two
    alphanumerics, each followed by a dot, then two or more letters, then
    nothing or one newline. *)
Lemma domain_pattern_iff (d : str) :
  re_match domain_pattern d = true
  <-> exists labels tld e,
        d = joined labels tld ++ e /\ labels <> []
        /\ Forall label_shape labels /\ forallb is_alpha tld = true
        /\ 2 <= length tld /\ at_eol e = true.
Proof.
  split.
  - intros H. destruct (domain_pattern_shape _ H) as [l [t [E [HL T]]]].
    destruct (domain_tail_joined T) as [ls [tld [e [E' [HLs R]]]]].
    exists (l :: ls), tld, e. split; [|split; [discriminate|]].
    + rewrite E, E'. unfold joined. simpl. rewrite <- !app_assoc. reflexivity.
    + split; [constructor; assumption | exact R].
  - intros [labels [tld [e [-> [Hne [HL [F [L He]]]]]]]].
    apply domain_words_matches; assumption.
Qed.

Lemma label_no_dot (l : str) : label_shape l -> count_char c_dot l = 0.
Proof.
  intros H. destruct (label_shape_chars H) as [_ F].
  exact (count_char_excluded is_alnum_hyphen c_dot l eq_refl F).
Qed.

(** Splitting what was joined gives the labels back. *)
Lemma split_joined (labels : list str) (last_label : str) :
  Forall label_shape labels -> count_char c_dot last_label = 0 ->
  split c_dot (joined labels last_label) = labels ++ [last_label].
Proof.
  unfold joined. intros HL C. induction HL as [|l ls H _ IH]; simpl.
  - apply split_whole, C.
  - rewrite <- !app_assoc. simpl. rewrite split_app, IH.
    rewrite (split_whole _ _ (label_no_dot H)). reflexivity.
Qed.

(** ** The explicit checks after the domain pattern *)

Lemma startswith_one (c x : char) (t : str) :
  startswith [c] (x :: t) = N.eqb c x.
Proof. simpl. apply andb_true_r. Qed.

Lemma endswith_one (c x : char) (t : str) :
  endswith [c] (t ++ [x]) = N.eqb c x.
Proof.
  unfold endswith. rewrite rev_app_distr. simpl. apply andb_true_r.
Qed.

Lemma alnum_not_hyphen (x : char) :
  is_alnum x = true -> N.eqb c_hyphen x = false.
Proof.
  intros H. destruct (N.eqb_spec c_hyphen x) as [<-|]; [discriminate H|].
  reflexivity.
Qed.

Lemma alpha_is_alnum (x : char) : is_alpha x = true -> is_alnum x = true.
Proof. unfold is_alnum. intros ->. reflexivity. Qed.

(** A label the pattern's group has matched passes the loop's two tests. *)
Lemma label_shape_fine (l : str) : label_shape l -> label_fine l.
Proof.
  intros H. split; [apply label_shape_length, H|].
  destruct H as [a [Ha [->|[mid [b [-> [_ [_ Hb]]]]]]]].
  - split.
    + rewrite startswith_one. apply alnum_not_hyphen, Ha.
    + rewrite (endswith_one c_hyphen a [] : endswith [c_hyphen] [a] = _).
      apply alnum_not_hyphen, Ha.
  - split.
    + rewrite startswith_one. apply alnum_not_hyphen, Ha.
    + rewrite (endswith_one c_hyphen b (a :: mid)
               : endswith [c_hyphen] (a :: mid ++ [b]) = _).
      apply alnum_not_hyphen, Hb.
Qed.

(** So does the top-level label, as far as hyphens go. *)
Lemma tld_no_hyphen_edge (tld e : str) :
  forallb is_alpha tld = true -> 2 <= length tld -> at_eol e = true ->
  startswith [c_hyphen] (tld ++ e) = false
  /\ endswith [c_hyphen] (tld ++ e) = false.
Proof.
  intros F L He. split.
  - destruct tld as [|x t]; [simpl in L; lia|]. simpl app.
    rewrite startswith_one. simpl in F. apply andb_true_iff in F.
    apply alnum_not_hyphen, alpha_is_alnum, F.
  - destruct (at_eol_cases _ He) as [-> | ->].
    + rewrite app_nil_r.
      destruct (@exists_last _ tld) as [t [x ->]].
      { intros ->. simpl in L. lia. }
      rewrite endswith_one. rewrite forallb_app in F.
      apply andb_true_iff in F. destruct F as [_ F]. simpl in F.
      apply andb_true_iff in F.
      apply alnum_not_hyphen, alpha_is_alnum, F.
    + rewrite endswith_one. reflexivity.
Qed.

Lemma check_labels_culprit (labels : list str) (v : verdict) :
  check_labels labels = Some v ->
  exists l, In l labels
    /\ ((63 < length l
         /\ v = (false, "Domain label exceeds 63 characters"%string))
        \/ ((startswith [c_hyphen] l = true \/ endswith [c_hyphen] l = true)
            /\ v = (false,
                    "Domain labels cannot start or end with hyphen"%string))).
Proof.
  induction labels as [|l ls IH]; cbn [check_labels]; [discriminate|].
  destruct (Nat.ltb_spec 63 (length l)) as [L|L].
  - intros [= <-]. exists l. split; [left; reflexivity|]. left. auto.
  - destruct (startswith [c_hyphen] l || endswith [c_hyphen] l)%bool eqn:Hy.
    + intros [= <-]. exists l. split; [left; reflexivity|]. right.
      apply orb_true_iff in Hy. auto.
    + intros H. destruct (IH H) as [l' [HI R]]. exists l'.
      split; [right; exact HI | exact R].
Qed.

(** The labels [split] finds in a domain that matches the pattern. *)
Lemma domain_pattern_split (d : str) :
  re_match domain_pattern d = true ->
  exists labels tld e,
    split c_dot d = labels ++ [tld ++ e] /\ labels <> []
    /\ Forall label_shape labels /\ forallb is_alpha tld = true
    /\ 2 <= length tld /\ at_eol e = true.
Proof.
  intros H. apply domain_pattern_iff in H.
  destruct H as [labels [tld [e [-> [Hne [HL [F [L He]]]]]]]].
  exists labels, tld, e. repeat split; try assumption.
  unfold joined. rewrite <- app_assoc. apply (split_joined (tld ++ e) HL).
  rewrite count_char_app, (at_eol_no_dot _ He).
  rewrite (count_char_excluded is_alpha c_dot tld eq_refl F). reflexivity.
Qed.

(** The three answers of the explicit checks, with what led to them. *)
Lemma validate_parts_label_cases (local domain : str) (v : verdict) :
  validate_parts local domain = Ret v ->
  v = (false, "Domain label exceeds 63 characters"%string)
  \/ v = (false, "Domain labels cannot start or end with hyphen"%string)
  \/ v = (false, "Top-level domain must be at least 2 characters"%string) ->
  re_match domain_pattern domain = true
  /\ (check_labels (split c_dot domain) = Some v
      \/ length (last (split c_dot domain) []) < 2).
Proof.
  unfold validate_parts.
  branch C1; [intros [= <-] [H|[H|H]]; discriminate H|].
  branch C2; [intros [= <-] [H|[H|H]]; discriminate H|].
  branch C3; [intros [= <-] [H|[H|H]]; discriminate H|].
  branch C4; [intros [= <-] [H|[H|H]]; discriminate H|].
  branch C5; [intros [= <-] [H|[H|H]]; discriminate H|].
  apply negb_false_iff in C5. intros H K. split; [exact C5|].
  destruct (check_labels (split c_dot domain)) as [w|] eqn:CL.
  - left. congruence.
  - right. revert H. rewrite index_last_split. simpl.
    branch C6; [|intros [= <-]; destruct K as [K|[K|K]]; discriminate K].
    intros _. apply Nat.ltb_lt, C6.
Qed.

(** What [validate_email] answers for a string: one of the three early
    answers, or the answer of [validate_parts] for the two parts around the
    single [@] of the trimmed string. *)
Lemma validate_email_parts (s : str) (w : verdict) :
  validate_email (PyStr s) = Ret w ->
  w = (false, "Email cannot be empty"%string)
  \/ w = (false, "Email exceeds maximum length of 254 characters"%string)
  \/ w = (false, "Email must contain exactly one @ symbol"%string)
  \/ exists local domain,
       strip s = local ++ c_at :: domain
       /\ count_char c_at (strip s) = 1 /\ length (strip s) <= 254
       /\ validate_parts local domain = Ret w.
Proof.
  destruct s as [|x t]; [intros [= <-]; tauto|].
  rewrite validate_email_str by discriminate.
  branch L; [intros [= <-]; tauto|].
  branch C; [intros [= <-]; tauto|].
  apply negb_false_iff, Nat.eqb_eq in C. apply Nat.ltb_ge in L.
  destruct (rsplit1_spec c_at (strip (x :: t)))
    as [[C0 _] | [l [d [E [Es _]]]]]; [lia|].
  rewrite E. simpl unpack2. cbv iota beta. intros H.
  right. right. right. exists l, d. auto.
Qed.

(** Neither the hyphen test of the loop nor the test on the length of the
    top-level label can fail once the domain pattern has matched. *)
Lemma explicit_checks_only_length (local domain : str) (v : verdict) :
  validate_parts local domain = Ret v ->
  v <> (false, "Domain labels cannot start or end with hyphen"%string)
  /\ v <> (false, "Top-level domain must be at least 2 characters"%string).
Proof.
  intros H.
  assert (K : v = (false, "Domain labels cannot start or end with hyphen"%string)
              \/ v = (false, "Top-level domain must be at least 2 characters"%string)
              -> False).
  { intros Hv.
    destruct (validate_parts_label_cases _ _ H) as [RD HC]; [tauto|].
    destruct (domain_pattern_split _ RD)
      as [labels [tld [e [ES [_ [HL [F [L He]]]]]]]].
    rewrite ES in HC. destruct HC as [HC|HC].
    - destruct (check_labels_culprit _ HC) as [l [HI [[_ Hx]|[Hy Hx]]]].
      + rewrite Hx in Hv. destruct Hv as [Hv|Hv]; discriminate Hv.
      + apply in_app_or in HI. destruct HI as [HI|[<-|[]]].
        * rewrite Forall_forall in HL.
          destruct (label_shape_fine (HL _ HI)) as [_ [S1 S2]].
          destruct Hy; congruence.
        * destruct (tld_no_hyphen_edge _ _ F L He) as [S1 S2].
          destruct Hy; congruence.
    - rewrite last_last, length_app in HC. lia. }
  split; intros ->; apply K; auto.
Qed.

Lemma stripped_domain_eol (s local d e : str) :
  strip s = local ++ c_at :: d ++ e -> at_eol e = true -> e = [].
Proof.
  intros E He. destruct (at_eol_cases _ He) as [-> | ->]; [reflexivity|].
  exfalso. pose proof (strip_last s) as SL. rewrite E in SL.
  replace (local ++ c_at :: d ++ [c_nl])
    with ((local ++ c_at :: d) ++ [c_nl]) in SL
    by (rewrite <- app_assoc; reflexivity).
  rewrite rev_app_distr in SL. simpl in SL. discriminate SL.
Qed.

Lemma local_runs_chars (l : str) :
  local_runs l ->
  l <> [] /\ forallb (fun x => is_alnum x || is_sep x)%bool l = true.
Proof.
  assert (A : forall w, forallb is_alnum w = true ->
                        forallb (fun x => is_alnum x || is_sep x)%bool w = true).
  { intros w F. rewrite forallb_forall in *. intros x Hx.
    rewrite (F _ Hx). reflexivity. }
  induction 1 as [w Hw F | w x t Hw F Hx _ [_ IH]].
  - split; [exact Hw | apply A, F].
  - split; [destruct w; [congruence | discriminate]|].
    rewrite forallb_app, (A _ F). simpl. rewrite Hx, IH, orb_true_r.
    reflexivity.
Qed.

Lemma local_words_chars (l : str) :
  local_words l ->
  l <> [] /\ exists body e,
    l = body ++ e /\ at_eol e = true
    /\ forallb (fun x => is_alnum x || is_sep x)%bool body = true.
Proof.
  intros [H | [l0 [-> H]]]; destruct (local_runs_chars H) as [Hne F].
  - split; [exact Hne|]. exists l, []. rewrite app_nil_r. auto.
  - split; [destruct l0; [congruence | discriminate]|].
    exists l0, [c_nl]. auto.
Qed.

Lemma local_words_no_at (l : str) : local_words l -> count_char c_at l = 0.
Proof.
  intros H. destruct (local_words_chars H) as [_ [body [e [-> [He F]]]]].
  rewrite count_char_app.
  rewrite (count_char_excluded _ c_at body eq_refl F).
  destruct (at_eol_cases _ He) as [-> | ->]; reflexivity.
Qed.

Lemma joined_chars (labels : list str) (tld : str) :
  Forall label_shape labels -> forallb is_alpha tld = true ->
  forallb (fun x => is_alnum_hyphen x || is_dot x)%bool (joined labels tld)
  = true.
Proof.
  intros HL F. unfold joined. induction HL as [|l ls H _ IH]; simpl.
  - rewrite forallb_forall in *. intros x Hx.
    rewrite (alnum_is_alnum_hyphen _ (alpha_is_alnum _ (F _ Hx))).
    reflexivity.
  - rewrite <- !app_assoc, forallb_app. simpl. rewrite IH, andb_true_r.
    destruct (label_shape_chars H) as [_ Hc].
    rewrite forallb_forall in *. intros x Hx. rewrite (Hc _ Hx). reflexivity.
Qed.

Lemma joined_length (labels : list str) (tld : str) :
  labels <> [] -> Forall label_shape labels ->
  2 + length tld <= length (joined labels tld).
Proof.
  intros Hne HL. destruct HL as [|l ls H _]; [congruence|].
  destruct (label_shape_chars H) as [Hl _].
  unfold joined. simpl. rewrite !length_app. simpl.
  destruct l; [congruence|]. simpl. lia.
Qed.

Lemma verdict_strip (s : str) (b : bool) (r : string) :
  validate_email (PyStr s) = Ret (b, r) ->
  exists r', validate_email (PyStr (strip s)) = Ret (b, r').
Proof.
  intros V. destruct (strip s) as [|x t] eqn:E.
  - exists "Email cannot be empty"%string. destruct s as [|y u].
    + injection V as <- _. reflexivity.
    + rewrite validate_email_str, E in V by discriminate.
      injection V as <- _. reflexivity.
  - exists r. rewrite <- V, <- E.
    rewrite (@validate_email_str (strip s)) by (rewrite E; discriminate).
    rewrite strip_idem. symmetry. apply validate_email_str.
    apply strip_nonempty. rewrite E. discriminate.
Qed.

(** The addresses [validate_email] accepts. *)
Lemma accepted_words (s : str) :
  validate_email (PyStr s) = Ret (true, "Valid email address"%string)
  <-> exists local domain,
        strip s = local ++ c_at :: domain
        /\ length (strip s) <= 254 /\ length local <= 64
        /\ local_words local /\ domain_words domain.
Proof.
  split.
  - intros H. apply validate_email_true in H.
    destruct H as [s' [l [d [[= <-] [E [_ [L [P _]]]]]]]].
    destruct P as [[_ L2] [RL [_ [_ [RD [FL _]]]]]].
    exists l, d. repeat split; try assumption.
    + apply local_pattern_iff, RL.
    + apply domain_pattern_iff in RD.
      destruct RD as [labels [tld [e [Ed [Hne [HL [F [Lt He]]]]]]]].
      rewrite Ed in E.
      pose proof (stripped_domain_eol _ _ _ _ E He) as ->.
      rewrite app_nil_r in Ed. exists labels, tld.
      repeat split; try assumption.
      rewrite Ed, split_joined in FL; [|exact HL|].
      * rewrite Forall_forall in FL.
        destruct (FL tld) as [Hl _]; [|exact Hl].
        apply in_or_app. right. left. reflexivity.
      * apply (count_char_excluded is_alpha c_dot tld eq_refl F).
  - intros [l [d [E [L [L2 [LW DW]]]]]].
    assert (C : count_char c_at (strip s) = 1).
    { rewrite E, count_char_app. simpl. rewrite (local_words_no_at LW).
      destruct DW as [labels [tld [-> [_ [HL [F _]]]]]].
      rewrite (count_char_excluded _ c_at _ eq_refl (@joined_chars labels tld HL F)).
      reflexivity. }
    rewrite (validate_email_split _ _ _ E C L).
    apply validate_parts_pass.
    assert (RL : re_match local_pattern l = true)
      by (apply local_pattern_iff, LW).
    destruct (local_words_chars LW) as [Hne _].
    destruct DW as [labels [tld [-> [Hl [HL [F [Lt1 Lt2]]]]]]].
    pose proof (@joined_length labels tld Hl HL) as JL.
    assert (ES : split c_dot (joined labels tld) = labels ++ [tld]).
    { apply split_joined; [exact HL|].
      apply (count_char_excluded is_alpha c_dot tld eq_refl F). }
    unfold parts_pass. rewrite ES, last_last.
    repeat split; try assumption; try lia.
    + destruct l; [congruence | simpl; lia].
    + apply local_pattern_no_dotdot, RL.
    + rewrite <- (app_nil_r (joined labels tld)).
      apply domain_words_matches; auto.
    + apply Forall_app. split.
      * apply Forall_impl with (P := label_shape); [|exact HL].
        intros a. apply label_shape_fine.
      * constructor; [|constructor].
        destruct (tld_no_hyphen_edge tld [] F Lt1 eq_refl) as [S1 S2].
        rewrite app_nil_r in S1, S2. split; [exact Lt2|]. split; assumption.
Qed.

(** ** Verdicts and reasons *)

(** X1.  The verdict and the reason never disagree: the address is valid
    exactly when the reason is "Valid email address". *)
Theorem verdict_matches_reason (v : pyval) (b : bool) (r : string) :
  validate_email v = Ret (b, r) ->
  (b = true <-> r = "Valid email address"%string).
Proof.
  intros H. destruct b.
  - apply validate_email_true in H.
    destruct H as [_ [_ [_ [_ [_ [_ [_ [_ ->]]]]]]]]. tauto.
  - split; [discriminate|]. intros ->. exfalso.
    apply validate_email_cases in H.
    destruct H as [H|[H|[H|[l [d H]]]]]; try discriminate H.
    apply validate_parts_cases in H.
    destruct H as [H|[H|[[H _]|[H|[H|[H|[H|[H|H]]]]]]]]; discriminate H.
Qed.

Lemma verdict_matches_reason_witness :
  false = true <-> "Domain part is too short"%string
                   = "Valid email address"%string.
Proof.
  apply (@verdict_matches_reason (lit "user@")). reflexivity.
Defined.

(** X2.  The reasons that can be given are exactly nine: of the thirteen
    messages in the source, the four of the unpacking handler, of the
    consecutive-dots test, of the hyphen test and of the test on the length
    of the top-level label never come out. *)
Theorem reasons_exact (r : string) :
  In r reachable_reasons <-> exists v b, validate_email v = Ret (b, r).
Proof.
  split.
  - unfold reachable_reasons.
    intros [<-|[<-|[<-|[<-|[<-|[<-|[<-|[<-|[<-|[]]]]]]]]]].
    + exists PyNone, false. reflexivity.
    + exists (PyStr (repeat 97%N 255)), false. vm_compute. reflexivity.
    + exists (lit "a"), false. vm_compute. reflexivity.
    + exists (lit "@b.co"), false. vm_compute. reflexivity.
    + exists (lit ".a@b.co"), false. vm_compute. reflexivity.
    + exists (lit "a@b"), false. vm_compute. reflexivity.
    + exists (lit "a@b.c1"), false. vm_compute. reflexivity.
    + exists (PyStr (of_string "a@b." ++ repeat 97%N 64)), false.
      vm_compute. reflexivity.
    + exists (lit "a@b.co"), true. vm_compute. reflexivity.
  - intros [v [b H]]. apply validate_email_cases in H.
    destruct H as [H|[H|[H|[l [d H]]]]];
      try (injection H as _ ->; simpl; tauto).
    destruct (explicit_checks_only_length _ _ H) as [N1 N2].
    apply validate_parts_cases in H.
    destruct H as [H|[H|[[_ [R D]]|[H|[H|[H|[H|[H|H]]]]]]]];
      try (injection H as _ ->; simpl; tauto).
    + rewrite (local_pattern_no_dotdot _ R) in D. discriminate D.
    + contradiction.
    + contradiction.
Qed.

Lemma reasons_exact_witness :
  exists v b, validate_email v = Ret (b, "Domain part is too short"%string).
Proof.
  apply (proj1 (reasons_exact "Domain part is too short")).
  unfold reachable_reasons. do 5 right. left. reflexivity.
Defined.

(** X3.  The reason "Domain labels cannot start or end with hyphen" is never
    given: every label of a domain that matches the domain pattern starts
    and ends with a character that is not a hyphen. *)
Theorem hyphen_reason_unreachable :
  (forall domain label,
      re_match domain_pattern domain = true ->
      In label (split c_dot domain) ->
      startswith [c_hyphen] label = false
      /\ endswith [c_hyphen] label = false)
  /\ (forall v b,
        validate_email v
        <> Ret (b, "Domain labels cannot start or end with hyphen"%string)).
Proof.
  split.
  - intros d l RD HI.
    destruct (domain_pattern_split _ RD)
      as [labels [tld [e [ES [_ [HL [F [L He]]]]]]]].
    rewrite ES in HI. apply in_app_or in HI. destruct HI as [HI|[<-|[]]].
    + rewrite Forall_forall in HL. apply (label_shape_fine (HL _ HI)).
    + apply tld_no_hyphen_edge; assumption.
  - intros v b H. apply validate_email_cases in H.
    destruct H as [H|[H|[H|[l [d H]]]]]; try discriminate H.
    destruct (explicit_checks_only_length _ _ H) as [N1 _].
    destruct b; [|contradiction].
    apply validate_parts_true in H. destruct H as [_ H]. discriminate H.
Qed.

Lemma hyphen_reason_unreachable_witness :
  startswith [c_hyphen] (of_string "test-domain") = false
  /\ endswith [c_hyphen] (of_string "test-domain") = false.
Proof.
  apply (proj1 hyphen_reason_unreachable (of_string "test-domain.org")).
  - reflexivity.
  - left. reflexivity.
Defined.

(** X4.  The reason "Top-level domain must be at least 2 characters" is
    never given: the last label of a domain that matches the domain pattern
    has at least two characters. *)
Theorem tld_reason_unreachable :
  (forall domain,
      re_match domain_pattern domain = true ->
      2 <= length (last (split c_dot domain) []))
  /\ (forall v b,
        validate_email v
        <> Ret (b, "Top-level domain must be at least 2 characters"%string)).
Proof.
  split.
  - intros d RD.
    destruct (domain_pattern_split _ RD) as [labels [tld [e [ES [_ [_ [_ [L _]]]]]]]].
    rewrite ES, last_last, length_app. lia.
  - intros v b H. apply validate_email_cases in H.
    destruct H as [H|[H|[H|[l [d H]]]]]; try discriminate H.
    destruct (explicit_checks_only_length _ _ H) as [_ N2].
    destruct b; [|contradiction].
    apply validate_parts_true in H. destruct H as [_ H]. discriminate H.
Qed.

Lemma tld_reason_unreachable_witness :
  2 <= length (last (split c_dot (of_string "domain.co.uk")) []).
Proof.
  apply (proj1 tld_reason_unreachable). reflexivity.
Defined.

(** X5.  When the reason is "Domain label exceeds 63 characters", the label
    that is too long is the last one: the domain has matched the pattern,
    which keeps every other label within 63 characters. *)
Theorem label_length_reason_is_tld (s : str) (b : bool) :
  validate_email (PyStr s)
  = Ret (b, "Domain label exceeds 63 characters"%string) ->
  exists local domain,
    strip s = local ++ c_at :: domain
    /\ re_match domain_pattern domain = true
    /\ 63 < length (last (split c_dot domain) [])
    /\ Forall (fun l => length l <= 63) (removelast (split c_dot domain)).
Proof.
  intros H. apply validate_email_parts in H.
  destruct H as [H|[H|[H|[l [d [E [_ [_ H]]]]]]]]; try discriminate H.
  exists l, d. split; [exact E|].
  destruct (validate_parts_label_cases _ _ H) as [RD HC].
  { left. destruct b; [|reflexivity].
    apply validate_parts_true in H. destruct H as [_ H]. discriminate H. }
  split; [exact RD|].
  destruct (domain_pattern_split _ RD)
    as [labels [tld [e [ES [_ [HL [_ [L _]]]]]]]].
  rewrite ES, last_last, removelast_last. rewrite ES in HC. split.
  - destruct HC as [HC|HC]; [|rewrite last_last, length_app in HC; lia].
    destruct (check_labels_culprit _ HC) as [x [HI [[Hx _]|[_ Hx]]]];
      [|discriminate Hx].
    apply in_app_or in HI. destruct HI as [HI|[<-|[]]]; [|exact Hx].
    rewrite Forall_forall in HL.
    pose proof (label_shape_length (HL _ HI)). lia.
  - apply Forall_impl with (P := label_shape); [|exact HL].
    intros a. apply label_shape_length.
Qed.

Lemma label_length_reason_is_tld_witness :
  exists local domain,
    strip (of_string "a@b." ++ repeat 97%N 64) = local ++ c_at :: domain
    /\ re_match domain_pattern domain = true
    /\ 63 < length (last (split c_dot domain) [])
    /\ Forall (fun l => length l <= 63) (removelast (split c_dot domain)).
Proof.
  apply (@label_length_reason_is_tld
           (of_string "a@b." ++ repeat 97%N 64) false).
  vm_compute. reflexivity.
Defined.

(** ** The accepted addresses *)

(** X6.  [validate_email] accepts a string exactly when its trimmed form,
    of at most 254 characters, is a local part, an [@] and a domain, where
    the local part has at most 64 characters and is made of alphanumeric
    runs joined by single separators (with or without one newline after
    them), and the domain is one or more labels, each followed by a dot,
    and a top-level label of 2 to 63 letters. *)
Theorem accepted_addresses (s : str) :
  validate_email (PyStr s) = Ret (true, "Valid email address"%string)
  <-> exists local domain,
        strip s = local ++ c_at :: domain
        /\ length (strip s) <= 254 /\ length local <= 64
        /\ local_words local /\ domain_words domain.
Proof. apply accepted_words. Qed.

Lemma accepted_addresses_witness :
  validate_email (lit " john.doe@mail.example.org")
  = Ret (true, "Valid email address"%string).
Proof.
  apply (proj2 (accepted_addresses (of_string " john.doe@mail.example.org"))).
  exists (of_string "john.doe"), (of_string "mail.example.org").
  split; [reflexivity|]. split; [apply Nat.leb_le; reflexivity|].
  split; [apply Nat.leb_le; reflexivity|]. split.
  - left. apply (@lr_more (of_string "john") c_dot (of_string "doe"));
      try reflexivity; try discriminate.
    apply lr_one; [discriminate | reflexivity].
  - exists [of_string "mail"; of_string "example"], (of_string "org").
    split; [reflexivity|]. split; [discriminate|]. split.
    + constructor; [|constructor; [|constructor]].
      * exists 109%N. split; [reflexivity|]. right.
        exists (of_string "ai"), 108%N. repeat split.
        apply Nat.leb_le. reflexivity.
      * exists 101%N. split; [reflexivity|]. right.
        exists (of_string "xampl"), 101%N. repeat split.
        apply Nat.leb_le. reflexivity.
    + split; [reflexivity|]. split; apply Nat.leb_le; reflexivity.
Defined.

(** X7.  A valid address has, once trimmed, between 6 and 254 characters:
    at least one before the [@] and at least four after it. *)
Theorem valid_length_bounds (s : str) (r : string) :
  validate_email (PyStr s) = Ret (true, r) ->
  6 <= length (strip s) <= 254
  /\ exists local domain,
       strip s = local ++ c_at :: domain
       /\ 1 <= length local <= 64 /\ 4 <= length domain <= 253.
Proof.
  intros H. pose proof (validate_email_true _ H) as [_ [_ [_ [_ [_ [_ [_ [_ ->]]]]]]]].
  apply accepted_words in H.
  destruct H as [l [d [E [L [L2 [LW DW]]]]]].
  destruct (local_words_chars LW) as [Hne _].
  destruct DW as [labels [tld [Ed [Hl [HL [_ [Lt _]]]]]]].
  pose proof (@joined_length labels tld Hl HL) as JL. rewrite <- Ed in JL.
  assert (1 <= length l) by (destruct l; [congruence | simpl; lia]).
  pose proof L as L'. rewrite E, length_app in L'. simpl in L'.
  split.
  - rewrite E, length_app. simpl. lia.
  - exists l, d. split; [exact E|]. lia.
Qed.

Lemma valid_length_bounds_witness :
  6 <= length (strip (of_string "a@b.co")) <= 254
  /\ exists local domain,
       strip (of_string "a@b.co") = local ++ c_at :: domain
       /\ 1 <= length local <= 64 /\ 4 <= length domain <= 253.
Proof.
  apply (@valid_length_bounds (of_string "a@b.co") "Valid email address").
  reflexivity.
Defined.

(** X8.  The characters of a valid address: after the [@] only letters,
    digits, hyphens and dots; before it only letters, digits and the four
    separators, except for one newline that may stand right before the
    [@]. *)
Theorem valid_characters (s : str) (r : string) :
  validate_email (PyStr s) = Ret (true, r) ->
  exists local domain,
    strip s = local ++ c_at :: domain
    /\ forallb (fun x => is_alnum_hyphen x || is_dot x)%bool domain = true
    /\ exists body e,
         local = body ++ e /\ at_eol e = true
         /\ forallb (fun x => is_alnum x || is_sep x)%bool body = true.
Proof.
  intros H. pose proof (validate_email_true _ H) as [_ [_ [_ [_ [_ [_ [_ [_ ->]]]]]]]].
  apply accepted_words in H.
  destruct H as [l [d [E [_ [_ [LW DW]]]]]].
  exists l, d. split; [exact E|]. split.
  - destruct DW as [labels [tld [-> [_ [HL [F _]]]]]].
    apply joined_chars; assumption.
  - apply (local_words_chars LW).
Qed.

Lemma valid_characters_witness :
  exists local domain,
    strip (of_string "user_123@test-domain.org") = local ++ c_at :: domain
    /\ forallb (fun x => is_alnum_hyphen x || is_dot x)%bool domain = true
    /\ exists body e,
         local = body ++ e /\ at_eol e = true
         /\ forallb (fun x => is_alnum x || is_sep x)%bool body = true.
Proof.
  apply (@valid_characters (of_string "user_123@test-domain.org")
           "Valid email address").
  reflexivity.
Defined.

(** X9.  The local pattern accepts exactly the strings made of runs of
    letters and digits joined by single separators, with or without one
    newline after them. *)
Theorem local_pattern_language (l : str) :
  re_match local_pattern l = true <-> local_words l.
Proof. apply local_pattern_iff. Qed.

Lemma local_pattern_language_witness :
  re_match local_pattern (of_string "a.b") = true.
Proof.
  apply (proj2 (local_pattern_language (of_string "a.b"))). left.
  apply (@lr_more (of_string "a") c_dot (of_string "b"));
    try reflexivity; try discriminate.
  apply lr_one; [discriminate | reflexivity].
Defined.

(** X10.  The domain pattern accepts exactly: one or more labels, each a
    single alphanumeric or two alphanumerics around at most 61
    alphanumerics and hyphens, each followed by a dot; then two or more
    letters; then nothing or one newline. *)
Theorem domain_pattern_language (d : str) :
  re_match domain_pattern d = true
  <-> exists labels tld e,
        d = joined labels tld ++ e /\ labels <> []
        /\ Forall label_shape labels /\ forallb is_alpha tld = true
        /\ 2 <= length tld /\ at_eol e = true.
Proof. apply domain_pattern_iff. Qed.

Lemma domain_pattern_language_witness :
  re_match domain_pattern (of_string "b.co") = true.
Proof.
  apply (proj2 (domain_pattern_language (of_string "b.co"))).
  exists [of_string "b"], (of_string "co"), [].
  split; [reflexivity|]. split; [discriminate|]. split.
  - constructor; [|constructor]. exists 98%N. split; [reflexivity|].
    left. reflexivity.
  - split; [reflexivity|]. split; [apply Nat.leb_le|]; reflexivity.
Defined.

(** X11.  A missing part: with one [@] and no more than 254 characters, an
    empty local part is answered with "Local part must be 1-64 characters",
    and a domain of fewer than 3 characters (none, in particular) after a
    well-formed local part with "Domain part is too short". *)
Theorem missing_part_reasons (s local domain : str) :
  strip s = local ++ c_at :: domain ->
  count_char c_at (strip s) = 1 ->
  length (strip s) <= 254 ->
  (local = [] ->
   validate_email (PyStr s)
   = Ret (false, "Local part must be 1-64 characters"%string))
  /\ (local_words local -> length local <= 64 -> length domain < 3 ->
      validate_email (PyStr s)
      = Ret (false, "Domain part is too short"%string)).
Proof.
  intros E C L. rewrite (validate_email_split _ _ _ E C L). split.
  - intros ->. reflexivity.
  - intros LW L2 LD. unfold validate_parts.
    destruct (local_words_chars LW) as [Hne _].
    replace (Nat.eqb (length local) 0) with false
      by (symmetry; apply Nat.eqb_neq; destruct local;
          [congruence | discriminate]).
    replace (Nat.ltb 64 (length local)) with false
      by (symmetry; apply Nat.ltb_ge; exact L2).
    apply local_pattern_iff in LW.
    rewrite LW, (local_pattern_no_dotdot _ LW). simpl.
    replace (Nat.ltb (length domain) 3) with true
      by (symmetry; apply Nat.ltb_lt; exact LD).
    rewrite orb_true_r. reflexivity.
Qed.

Lemma missing_part_reasons_witness :
  validate_email (lit "@example.com")
  = Ret (false, "Local part must be 1-64 characters"%string).
Proof.
  apply (@missing_part_reasons (of_string "@example.com") []
           (of_string "example.com")); try reflexivity.
  apply Nat.leb_le. reflexivity.
Defined.

(** ** The command line *)

Lemma print_cases (stdout : device) (text : str) (w : list str) :
  print stdout text w = (w ++ [text; [c_nl]], Ret tt)
  \/ exists w' e, print stdout text w = (w', Raise e)
                  /\ write_failed stdout w' e.
Proof.
  unfold print, io_bind, write.
  destruct (stdout w text) as [e|] eqn:W1.
  - right. exists w, e. split; [reflexivity|]. exists text. exact W1.
  - destruct (stdout (w ++ [text]) [c_nl]) as [e|] eqn:W2.
    + right. exists (w ++ [text]), e. split; [reflexivity|].
      exists [c_nl]. exact W2.
    + left. rewrite <- app_assoc. reflexivity.
Qed.

Lemma two_prints_exit (stdout : device) (a b : str) (code : nat) :
  (print stdout a ;;; print stdout b ;;; sys_exit code) []
  = ([a; [c_nl]; b; [c_nl]], Raise (SystemExit code))
  \/ exists w' e,
       (print stdout a ;;; print stdout b ;;; sys_exit code) [] = (w', Raise e)
       /\ write_failed stdout w' e.
Proof.
  destruct (print_cases stdout a []) as [E1 | [w' [e [E1 F]]]].
  - simpl app in E1.
    destruct (print_cases stdout b [a; [c_nl]]) as [E2 | [w' [e [E2 F]]]].
    + left. unfold io_bind. rewrite E1, E2. reflexivity.
    + right. exists w', e. split; [|exact F].
      unfold io_bind. rewrite E1, E2. reflexivity.
  - right. exists w', e. split; [|exact F].
    unfold io_bind. rewrite E1. reflexivity.
Qed.

Lemma main_one_argument (stdout : device) (prog email : str)
      (b : bool) (reason : string) :
  validate_email (PyStr email) = Ret (b, reason) ->
  main stdout [prog; email] []
  = (print stdout (status_line b email) ;;;
     print stdout (reason_line reason) ;;;
     sys_exit (if b then 0 else 1)) [].
Proof.
  intros V. unfold main.
  change (negb (Nat.eqb (length [prog; email]) 2)) with false. cbv iota.
  unfold io_bind, io_lift.
  change (index [prog; email] 1) with (Ret email). cbv beta iota.
  rewrite V. reflexivity.
Qed.


(** X13.  On a standard output that accepts every write, whitespace
    around the argument changes neither the exit status of [main] nor the
    marker of the status line, and, unless the argument is nothing but
    whitespace, not the reason line either: the two runs differ only in
    the echo of the argument in the status line. *)
Theorem main_ignores_surrounding_whitespace
        (stdout : device) (prog prog' email : str) :
  (forall written text, stdout written text = None) ->
  exists b reason reason',
    main stdout [prog; email] []
    = ([status_line b email; [c_nl]; reason_line reason; [c_nl]],
       Raise (SystemExit (if b then 0 else 1)))
    /\ main stdout [prog'; strip email] []
       = ([status_line b (strip email); [c_nl]; reason_line reason'; [c_nl]],
          Raise (SystemExit (if b then 0 else 1)))
    /\ (strip email <> [] -> reason' = reason).
Proof.
  intros OK.
  assert (P : forall a b code,
             (print stdout a ;;; print stdout b ;;; sys_exit code) []
             = ([a; [c_nl]; b; [c_nl]], Raise (SystemExit code))).
  { intros a b code.
    destruct (two_prints_exit stdout a b code) as [H | [w' [e [_ [t F]]]]];
      [exact H|]. rewrite OK in F. discriminate F. }
  destruct (validate_email_total email) as [b [r V]].
  destruct (verdict_strip _ V) as [r' V'].
  exists b, r, r'.
  rewrite (@main_one_argument stdout prog email b r V).
  rewrite (@main_one_argument stdout prog' (strip email) b r' V'), !P.
  split; [reflexivity|]. split; [reflexivity|].
  intros H.
  assert (K : validate_email (PyStr (strip email))
              = validate_email (PyStr email)).
  { rewrite (validate_email_str H), strip_idem. symmetry.
    apply validate_email_str, strip_nonempty, H. }
  rewrite K, V in V'. injection V' as ->. reflexivity.
Qed.

Lemma main_ignores_surrounding_whitespace_witness :
  exists b reason reason',
    main accepting [of_string "prog"; of_string "  a@b.co "] []
    = ([status_line b (of_string "  a@b.co "); [c_nl];
        reason_line reason; [c_nl]],
       Raise (SystemExit (if b then 0 else 1)))
    /\ main accepting [of_string "prog"; strip (of_string "  a@b.co ")] []
       = ([status_line b (strip (of_string "  a@b.co ")); [c_nl];
           reason_line reason'; [c_nl]],
          Raise (SystemExit (if b then 0 else 1)))
    /\ (strip (of_string "  a@b.co ") <> [] -> reason' = reason).
Proof.
  apply (@main_ignores_surrounding_whitespace accepting).
  intros written text. reflexivity.
Defined.

(** ** The test suite *)

(** X14.  Every assertion of every test method holds: [run_tests] reports
    success. *)
Theorem test_suite_passes : run_tests = true.
Proof. vm_compute. reflexivity. Qed.
